(** * Buffer pool manager and LRU replacer (CMU 15-445, project 1)

    A shallow embedding of [src/buffer/buffer_pool_manager.cpp] and of the LRU
    replacer that follows it in the same source file, together with the
    properties of the pool that the specification states.

    Conventions of the embedding.
    - A [Page *] is a handle: the index of the frame in the array [pages_]
      that the constructor allocates.  The null pointer is [None].
    - The mutex acquisitions ([std::lock_guard]) are not modelled: every
      operation is a function from the state before the call to the state
      after it.
    - [assert] is modelled as the source has it (enabled): a failing
      assertion and a null dereference end the call with a [Fault]. *)

From stdpp Require Import base option list gmap sets fin_maps.
From Stdlib Require Import ZArith Lia.
From Stdlib Require Strings.Byte.

Local Open Scope Z_scope.
Set Warnings "-clear-no-such-hyp".

(** ** Outcomes of a call *)

Inductive fault : Type :=
  | NullDereference
  | AssertionFailure.

Inductive Outcome (A : Type) : Type :=
  | Done (a : A)
  | Fault (f : fault).
Arguments Done {A} a.
Arguments Fault {A} f.

#[global] Instance Outcome_bind : MBind Outcome := λ A B k m,
  match m with
  | Done a => k a
  | Fault f => Fault f
  end.

(** ** The LRU replacer *)

Module LRU.
Section replacer.
Context {T : Type} `{Countable T}.

(** [_list] is the doubly linked sequence, most recently inserted value
    first.  [_id2node] maps a value to the list node that holds it; the node
    is identified by the value it holds, so the index is kept as the set of
    its keys. *)
Record LRUReplacer : Type := mkLRU {
  _list : list T;
  _id2node : gset T;
}.

Definition empty : LRUReplacer := mkLRU [] ∅.

(** [_list.erase(it->second)]: unlink the node that holds [value]. *)
Fixpoint erase_node (value : T) (l : list T) : list T :=
  match l with
  | [] => []
  | x :: l' => if decide (x = value) then l' else x :: erase_node value l'
  end.

Definition Insert (value : T) (r : LRUReplacer) : LRUReplacer :=
  let l := if decide (value ∈ _id2node r) then erase_node value (_list r)
           else _list r in
  mkLRU (value :: l) ({[ value ]} ∪ _id2node r).

(** [Done None] is the [false] return; [Done (Some (v, r'))] is the [true]
    return with [value = v].  The assertion fails when the index is not
    empty but the sequence is. *)
Definition Victim (r : LRUReplacer) : Outcome (option (T * LRUReplacer)) :=
  if decide (_id2node r = ∅) then Done None
  else match last (_list r) with
       | None => Fault AssertionFailure
       | Some value =>
           Done (Some (value, mkLRU (removelast (_list r)) (_id2node r ∖ {[ value ]})))
       end.

Definition Erase (value : T) (r : LRUReplacer) : bool * LRUReplacer :=
  if decide (value ∈ _id2node r)
  then (true, mkLRU (erase_node value (_list r)) (_id2node r ∖ {[ value ]}))
  else (false, r).

Definition Size (r : LRUReplacer) : nat := size (_id2node r).

(** The index and the sequence agree, and no value has two nodes. *)
Definition wf (r : LRUReplacer) : Prop :=
  NoDup (_list r) ∧ ∀ v, v ∈ _id2node r ↔ v ∈ _list r.

(** States of a replacer that starts empty. *)
Inductive reachable : LRUReplacer → Prop :=
  | reach_empty : reachable empty
  | reach_Insert v r : reachable r → reachable (Insert v r)
  | reach_Victim v r r' :
      reachable r → Victim r = Done (Some (v, r')) → reachable r'
  | reach_Erase v r : reachable r → reachable (Erase v r).2.

End replacer.
Arguments LRUReplacer T {_ _}.
End LRU.

(** ** Pages and the disk manager

    [page/page.h], [disk/disk_manager.h], [common/config.h] and the header of
    the pool are not part of the source file; what the pool uses of them is
    modelled below. *)

Abbreviation page_id_t := Z.
Abbreviation Handle := nat.
Abbreviation bytes := (list Byte.byte).

(** Modelled from the spec: the class [Page] is missing; a frame owns a byte
    buffer of fixed size, a current page identifier, a pin count and a dirty
    flag.  The pin count is read into an [int] by [UnpinPage]; it is kept as
    an integer, and no operation below depends on its range. *)
Record Page : Type := mkPage {
  data_ : bytes;
  page_id_ : page_id_t;
  pin_count_ : Z;
  is_dirty_ : bool;
}.

#[global] Instance Page_inhabited : Inhabited Page :=
  populate (mkPage [] 0 0 false).

Definition GetData (p : Page) : bytes := data_ p.
Definition GetPageId (p : Page) : page_id_t := page_id_ p.
Definition GetPinCount (p : Page) : Z := pin_count_ p.
Definition IsDirty (p : Page) : bool := is_dirty_ p.

(** Modelled from the spec: the setters of [Page] are missing; pinning
    increments the pin count, unpinning decrements it. *)
Definition SetDirty (b : bool) (p : Page) : Page :=
  mkPage (data_ p) (page_id_ p) (pin_count_ p) b.
Definition SetPageId (id : page_id_t) (p : Page) : Page :=
  mkPage (data_ p) id (pin_count_ p) (is_dirty_ p).
Definition IncreasePinCount (p : Page) : Page :=
  mkPage (data_ p) (page_id_ p) (pin_count_ p + 1) (is_dirty_ p).
Definition DecreasePinCount (p : Page) : Page :=
  mkPage (data_ p) (page_id_ p) (pin_count_ p - 1) (is_dirty_ p).
(** The buffer behind [page->GetData()] is overwritten by the caller or by
    [ReadPage]. *)
Definition SetData (d : bytes) (p : Page) : Page :=
  mkPage d (page_id_ p) (pin_count_ p) (is_dirty_ p).

(** Modelled from the spec: the disk manager is missing.  It persists
    page-sized writes, reads a never-written page as zeros, hands out fresh
    identifiers from a counter and records deallocations.  [write_log] and
    [dealloc_log] record the calls, most recent first. *)
Record DiskManager : Type := mkDisk {
  disk_pages : gmap Z bytes;
  next_page_id_ : page_id_t;
  write_log : list (page_id_t * bytes);
  dealloc_log : list page_id_t;
}.

Definition WritePage (id : page_id_t) (d : bytes) (dm : DiskManager) : DiskManager :=
  mkDisk (<[id := d]> (disk_pages dm)) (next_page_id_ dm)
         ((id, d) :: write_log dm) (dealloc_log dm).

Definition AllocatePage (dm : DiskManager) : page_id_t * DiskManager :=
  (next_page_id_ dm,
   mkDisk (disk_pages dm) (next_page_id_ dm + 1) (write_log dm) (dealloc_log dm)).

Definition DeallocatePage (id : page_id_t) (dm : DiskManager) : DiskManager :=
  mkDisk (disk_pages dm) (next_page_id_ dm) (write_log dm) (id :: dealloc_log dm).

(** ** The buffer pool manager

    The members of the class, whose declaration is missing.  [page_table_]
    is the hash index from identifiers to frames ([Find] is a lookup,
    [Insert] binds the key, [Remove] unbinds it) and [dirty_pages_] the map
    from the identifiers of dirty pages to their frames. *)

Record BufferPoolManager : Type := mkPool {
  pool_size_ : nat;
  pages_ : list Page;
  page_table_ : gmap Z nat;
  replacer_ : LRU.LRUReplacer nat;
  free_list_ : list nat;
  dirty_pages_ : gmap Z nat;
  disk_manager_ : DiskManager;
}.

Definition set_pages (v : list Page) (s : BufferPoolManager) : BufferPoolManager :=
  mkPool (pool_size_ s) v (page_table_ s) (replacer_ s) (free_list_ s)
         (dirty_pages_ s) (disk_manager_ s).
Definition set_page_table (v : gmap Z nat) (s : BufferPoolManager) : BufferPoolManager :=
  mkPool (pool_size_ s) (pages_ s) v (replacer_ s) (free_list_ s)
         (dirty_pages_ s) (disk_manager_ s).
Definition set_replacer (v : LRU.LRUReplacer nat) (s : BufferPoolManager) : BufferPoolManager :=
  mkPool (pool_size_ s) (pages_ s) (page_table_ s) v (free_list_ s)
         (dirty_pages_ s) (disk_manager_ s).
Definition set_free_list (v : list nat) (s : BufferPoolManager) : BufferPoolManager :=
  mkPool (pool_size_ s) (pages_ s) (page_table_ s) (replacer_ s) v
         (dirty_pages_ s) (disk_manager_ s).
Definition set_dirty_pages (v : gmap Z nat) (s : BufferPoolManager) : BufferPoolManager :=
  mkPool (pool_size_ s) (pages_ s) (page_table_ s) (replacer_ s) (free_list_ s)
         v (disk_manager_ s).
Definition set_disk_manager (v : DiskManager) (s : BufferPoolManager) : BufferPoolManager :=
  mkPool (pool_size_ s) (pages_ s) (page_table_ s) (replacer_ s) (free_list_ s)
         (dirty_pages_ s) v.

(** The frame behind a handle, and a method call that mutates it.  The pool
    stores handles of its own frames only; on any other number [deref]
    yields the placeholder [inhabitant] and [modify_page] does nothing. *)
Definition deref (s : BufferPoolManager) (page : Handle) : Page := pages_ s !!! page.
Definition modify_page (page : Handle) (m : Page → Page) (s : BufferPoolManager)
  : BufferPoolManager :=
  set_pages (<[page := m (deref s page)]> (pages_ s)) s.

Section BufferPool.

(** Constants of [common/config.h], which is missing: the size of a page
    buffer and the reserved identifier. *)
Variable PAGE_SIZE : nat.
Variable INVALID_PAGE_ID : page_id_t.

Definition zero_buffer : bytes := replicate PAGE_SIZE Byte.x00.

(** Modelled from the spec: [Page::Reset] is missing; it clears the buffer,
    the pin count and the dirty flag, and an unbound frame carries
    [INVALID_PAGE_ID]. *)
Definition Reset (p : Page) : Page := mkPage zero_buffer INVALID_PAGE_ID 0 false.

(** Modelled from the spec: [DiskManager::ReadPage] is missing; a page that
    was never written reads as zeros. *)
Definition ReadPage (id : page_id_t) (dm : DiskManager) : bytes :=
  default zero_buffer (disk_pages dm !! id).

(** The constructor: every frame is unbound and on the free list. *)
Definition BufferPoolManager_new (pool_size : nat) (dm : DiskManager)
  : BufferPoolManager :=
  mkPool pool_size (replicate pool_size (Reset inhabitant)) ∅ LRU.empty
         (seq 0 pool_size) ∅ dm.

Definition releaseDirty (page : Handle) (s : BufferPoolManager) : BufferPoolManager :=
  let s1 :=
    if IsDirty (deref s page)
    then modify_page page (SetDirty false)
           (set_disk_manager
              (WritePage (GetPageId (deref s page)) (GetData (deref s page))
                         (disk_manager_ s)) s)
    else s in
  set_page_table (delete (GetPageId (deref s1 page)) (page_table_ s1)) s1.

Definition FetchPage (page_id : page_id_t) (s : BufferPoolManager)
  : Outcome (option Handle * BufferPoolManager) :=
  if decide (page_id = INVALID_PAGE_ID) then Done (None, s) else
  match page_table_ s !! page_id with
  | Some page => Done (Some page, modify_page page IncreasePinCount s)
  | None =>
      acquired ←
        match free_list_ s with
        | page :: rest => Done (Some (page, set_free_list rest s))
        | [] =>
            v ← LRU.Victim (replacer_ s);
            match v with
            | Some (page, r) => Done (Some (page, releaseDirty page (set_replacer r s)))
            | None => Done None
            end
        end;
      match acquired with
      | None => Done (None, s)
      | Some (page, s1) =>
          let s2 :=
            modify_page page
              (λ p, SetData (ReadPage page_id (disk_manager_ s1))
                      (IncreasePinCount (SetPageId page_id (Reset p)))) s1 in
          Done (Some page, set_page_table (<[page_id := page]> (page_table_ s2)) s2)
      end
  end.

Definition UnpinPage (page_id : page_id_t) (is_dirty : bool) (s : BufferPoolManager)
  : bool * BufferPoolManager :=
  match page_table_ s !! page_id with
  | Some page =>
      let pin_count := GetPinCount (deref s page) in
      if decide (pin_count > 0) then
        let s1 := modify_page page DecreasePinCount s in
        if decide (GetPinCount (deref s1 page) = 0) then
          let s2 :=
            if is_dirty
            then set_dirty_pages (<[page_id := page]> (dirty_pages_ s1))
                   (modify_page page (SetDirty true) s1)
            else s1 in
          (true, set_replacer (LRU.Insert page (replacer_ s2)) s2)
        else (true, s1)
      else (false, s)
  | None => (false, s)
  end.

Definition FlushPage (page_id : page_id_t) (s : BufferPoolManager)
  : Outcome (bool * BufferPoolManager) :=
  if decide (page_id = INVALID_PAGE_ID) then Done (false, s) else
  match page_table_ s !! page_id with
  | None => Fault NullDereference
  | Some page =>
      if decide (GetPageId (deref s page) = page_id) then
        if decide (GetPageId (deref s page) ≠ INVALID_PAGE_ID) then
          if IsDirty (deref s page) then
            let s1 :=
              modify_page page (SetDirty false)
                (set_disk_manager
                   (WritePage page_id (GetData (deref s page)) (disk_manager_ s)) s) in
            match dirty_pages_ s1 !! page_id with
            | Some _ => Done (true, set_dirty_pages (delete page_id (dirty_pages_ s1)) s1)
            | None => Fault AssertionFailure
            end
          else Done (false, s)
        else Fault AssertionFailure
      else Fault AssertionFailure
  end.

(** The body of the lambda that [FlushAllPages] applies to an entry
    [(p.first, p.second)] of the dirty set. *)
Definition flush_entry (s : BufferPoolManager) (p : page_id_t * Handle)
  : BufferPoolManager :=
  let page := p.2 in
  if IsDirty (deref s page)
  then modify_page page (SetDirty false)
         (set_disk_manager
            (WritePage p.1 (GetData (deref s page)) (disk_manager_ s)) s)
  else s.

(** [std::for_each] visits the entries in the order of the container, here
    the order of [map_to_list]. *)
Definition FlushAllPages (s : BufferPoolManager) : BufferPoolManager :=
  set_dirty_pages ∅ (foldl flush_entry s (map_to_list (dirty_pages_ s))).

Definition DeletePage (page_id : page_id_t) (s : BufferPoolManager)
  : bool * BufferPoolManager :=
  match page_table_ s !! page_id with
  | Some page =>
      if decide (GetPinCount (deref s page) = 0) then
        let s1 := set_page_table (delete page_id (page_table_ s)) s in
        let s2 := set_replacer (LRU.Erase page (replacer_ s1)).2 s1 in
        let s3 := set_dirty_pages (delete page_id (dirty_pages_ s2)) s2 in
        let s4 := set_disk_manager (DeallocatePage page_id (disk_manager_ s3)) s3 in
        let s5 := modify_page page Reset s4 in
        (false, set_free_list (free_list_ s5 ++ [page]) s5)
      else (false, s)
  | None => (false, s)
  end.

Definition allocatePage (s : BufferPoolManager)
  : Outcome (option (Handle * page_id_t) * BufferPoolManager) :=
  acquired ←
    match free_list_ s with
    | page :: rest => Done (Some (page, set_free_list rest s))
    | [] =>
        v ← LRU.Victim (replacer_ s);
        match v with
        | Some (page, r) => Done (Some (page, releaseDirty page (set_replacer r s)))
        | None => Done None
        end
    end;
  match acquired with
  | None => Done (None, s)
  | Some (page, s1) =>
      let '(id, dm) := AllocatePage (disk_manager_ s1) in
      let s2 := set_disk_manager dm s1 in
      let s3 :=
        modify_page page
          (λ p, SetData (ReadPage id (disk_manager_ s2))
                  (IncreasePinCount (SetPageId id (Reset p)))) s2 in
      Done (Some (page, id), set_page_table (<[id := page]> (page_table_ s3)) s3)
  end.

Definition NewPage (s : BufferPoolManager)
  : Outcome (option (Handle * page_id_t) * BufferPoolManager) :=
  allocatePage s.

(** The destructor flushes all pages and frees the pool; what is left is the
    disk. *)
Definition BufferPoolManager_delete (s : BufferPoolManager) : DiskManager :=
  disk_manager_ (FlushAllPages s).

(** *** The two halves of a miss

    [FetchPage] and [allocatePage] spell out the same two steps: take a
    frame from the free list or, failing that, from the replacer, and bind
    the frame to an identifier.  The steps are named here so that facts
    about them are stated once; [FetchPage_miss] and [allocatePage_steps]
    relate them to the operations. *)
Definition acquire_frame (s : BufferPoolManager)
  : Outcome (option (Handle * BufferPoolManager)) :=
  match free_list_ s with
  | page :: rest => Done (Some (page, set_free_list rest s))
  | [] =>
      v ← LRU.Victim (replacer_ s);
      match v with
      | Some (page, r) => Done (Some (page, releaseDirty page (set_replacer r s)))
      | None => Done None
      end
  end.

Definition bind_frame (page : Handle) (page_id : page_id_t) (s : BufferPoolManager)
  : BufferPoolManager :=
  let s' :=
    modify_page page
      (λ p, SetData (ReadPage page_id (disk_manager_ s))
              (IncreasePinCount (SetPageId page_id (Reset p)))) s in
  set_page_table (<[page_id := page]> (page_table_ s')) s'.

(** A frame that no member of the pool refers to. *)
Definition detached (s : BufferPoolManager) (page : Handle) : Prop :=
  (page < length (pages_ s))%nat
  ∧ (∀ k, page_table_ s !! k ≠ Some page)
  ∧ (page ∉ free_list_ s)
  ∧ (page ∉ LRU._list (replacer_ s)).

(** *** Reachable states and the invariant of the pool *)

(** The states of a pool that is constructed over some disk file and then
    driven through its public operations, the caller writing into the buffer
    of a frame only while it holds a pin on it.  The disk manager keeps its
    contract: the identifier that [AllocatePage] hands out is fresh, no frame
    of the pool is bound to it.  A call that faults ends the program and
    yields no state. *)
Inductive reachable : BufferPoolManager → Prop :=
  | reach_new pool_size dm :
      reachable (BufferPoolManager_new pool_size dm)
  | reach_FetchPage s page_id r s' :
      reachable s → FetchPage page_id s = Done (r, s') → reachable s'
  | reach_NewPage s r s' :
      reachable s →
      page_table_ s !! next_page_id_ (disk_manager_ s) = None →
      NewPage s = Done (r, s') → reachable s'
  | reach_UnpinPage s page_id is_dirty :
      reachable s → reachable (UnpinPage page_id is_dirty s).2
  | reach_FlushPage s page_id r s' :
      reachable s → FlushPage page_id s = Done (r, s') → reachable s'
  | reach_FlushAllPages s :
      reachable s → reachable (FlushAllPages s)
  | reach_DeletePage s page_id :
      reachable s → reachable (DeletePage page_id s).2
  | reach_write s page d :
      reachable s → GetPinCount (deref s page) > 0 → length d = PAGE_SIZE →
      reachable (modify_page page (SetData d) s).

Record pool_inv (s : BufferPoolManager) : Prop := mkInv {
  inv_lru : LRU.wf (replacer_ s);
  inv_table : ∀ k f, page_table_ s !! k = Some f →
    ∃ p, pages_ s !! f = Some p ∧ page_id_ p = k;
  inv_free_nodup : NoDup (free_list_ s);
  inv_free : ∀ f, f ∈ free_list_ s →
    (f < length (pages_ s))%nat ∧ ∀ k, page_table_ s !! k ≠ Some f;
  inv_replacer : ∀ f, f ∈ LRU._list (replacer_ s) →
    page_table_ s !! page_id_ (deref s f) = Some f;
  inv_dirty : ∀ f p, pages_ s !! f = Some p → is_dirty_ p = true →
    page_table_ s !! page_id_ p = Some f ∧ dirty_pages_ s !! page_id_ p = Some f;
}.

(** *** Callers that fetch existing pages

    The states reached when the caller fetches only identifiers that the
    disk manager has handed out; the counter then never returns an
    identifier that is in the page table ([client_reachable_reachable]). *)

Definition allocated (dm : DiskManager) (page_id : page_id_t) : Prop :=
  0 ≤ page_id < next_page_id_ dm.

Inductive client_reachable : BufferPoolManager → Prop :=
  | client_new pool_size dm :
      client_reachable (BufferPoolManager_new pool_size dm)
  | client_FetchPage s page_id r s' :
      client_reachable s → allocated (disk_manager_ s) page_id →
      FetchPage page_id s = Done (r, s') → client_reachable s'
  | client_NewPage s r s' :
      client_reachable s → NewPage s = Done (r, s') → client_reachable s'
  | client_UnpinPage s page_id is_dirty :
      client_reachable s → client_reachable (UnpinPage page_id is_dirty s).2
  | client_FlushPage s page_id r s' :
      client_reachable s → FlushPage page_id s = Done (r, s') → client_reachable s'
  | client_FlushAllPages s :
      client_reachable s → client_reachable (FlushAllPages s)
  | client_DeletePage s page_id :
      client_reachable s → client_reachable (DeletePage page_id s).2
  | client_write s page d :
      client_reachable s → GetPinCount (deref s page) > 0 → length d = PAGE_SIZE →
      client_reachable (modify_page page (SetData d) s).

(** Every identifier in the page table is below the counter of the disk
    manager. *)
Definition table_allocated (s : BufferPoolManager) : Prop :=
  ∀ k f, page_table_ s !! k = Some f → k < next_page_id_ (disk_manager_ s).

(** From [s] to [s'] the page table gains no key and the counter does not go
    back. *)
Definition table_within (s s' : BufferPoolManager) : Prop :=
  (∀ k, page_table_ s !! k = None → page_table_ s' !! k = None)
  ∧ next_page_id_ (disk_manager_ s) ≤ next_page_id_ (disk_manager_ s').

(** *** Further invariants of the reachable states *)

(** No frame shows a negative pin count. *)
Definition pins_ok (s : BufferPoolManager) : Prop :=
  ∀ (f : nat) p, pages_ s !! f = Some p → 0 ≤ pin_count_ p.

(** A frame is on the free list or bound in the page table under the
    identifier it carries. *)
Definition frame_placed (s : BufferPoolManager) (f : Handle) : Prop :=
  f ∈ free_list_ s ∨ page_table_ s !! page_id_ (deref s f) = Some f.

Definition covered (s : BufferPoolManager) : Prop :=
  ∀ f : nat, (f < length (pages_ s))%nat → frame_placed s f.

(** Every frame but [page], which an operation has in hand. *)
Definition covered_except (s : BufferPoolManager) (page : Handle) : Prop :=
  ∀ f : nat, (f < length (pages_ s))%nat → f ≠ page → frame_placed s f.

(** From [s] to [s'] the page table, the free list and the identifiers of
    the frames are the same. *)
Definition same_binding (s s' : BufferPoolManager) : Prop :=
  page_table_ s' = page_table_ s
  ∧ free_list_ s' = free_list_ s
  ∧ length (pages_ s') = length (pages_ s)
  ∧ ∀ g : nat, page_id_ (deref s' g) = page_id_ (deref s g).

(** A frame on the free list is as [Reset] leaves it. *)
Definition free_frames_reset (s : BufferPoolManager) : Prop :=
  ∀ f : nat, f ∈ free_list_ s → pages_ s !! f = Some (Reset inhabitant).

End BufferPool.

(** ** Concrete pools

    A pool of one frame with two-byte pages over an empty disk file, and the
    states it goes through in the scenarios used below. *)

Definition after {A : Type} (o : Outcome (A * BufferPoolManager))
  (s : BufferPoolManager) : BufferPoolManager :=
  match o with
  | Done (_, s') => s'
  | Fault _ => s
  end.

Definition disk0 : DiskManager := mkDisk ∅ 0 [] [].

(** Fresh pool of one frame. *)
Definition pool_fresh : BufferPoolManager := BufferPoolManager_new 2 (-1) 1 disk0.
(** [NewPage → 0]: the only frame holds page 0 and is pinned. *)
Definition pool_pinned : BufferPoolManager := after (NewPage 2 (-1) pool_fresh) pool_fresh.
(** [UnpinPage(0, false)]: page 0 is clean and evictable. *)
Definition pool_unpinned : BufferPoolManager := (UnpinPage 0 false pool_pinned).2.
(** [UnpinPage(0, true)]: page 0 is dirty and evictable. *)
Definition pool_dirty : BufferPoolManager := (UnpinPage 0 true pool_pinned).2.

(** [FetchPage(0)] on the unpinned page: a hit that pins the frame again. *)
Definition pool_refetched : BufferPoolManager :=
  after (FetchPage 2 (-1) 0 pool_unpinned) pool_unpinned.
(** [NewPage → 1] on the pool whose only frame holds dirty page 0: the frame
    is taken as the replacer's victim. *)
Definition pool_evicted : BufferPoolManager := after (NewPage 2 (-1) pool_dirty) pool_dirty.
(** The caller writes "XY" into page 1 and unpins it as dirty. *)
Definition pool_rewritten : BufferPoolManager :=
  (UnpinPage 1 true (modify_page 0 (SetData [Byte.x58; Byte.x59]) pool_evicted)).2.
(** [DeletePage(0)] on the unpinned page. *)
Definition pool_deleted : BufferPoolManager := (DeletePage 2 (-1) 0 pool_unpinned).2.

(** [FetchPage(0)] on the pool whose only frame holds page 1: page 0 comes
    back from disk. *)
Definition pool_rewritten_refetched : BufferPoolManager :=
  after (FetchPage 2 (-1) 0 pool_rewritten) pool_rewritten.

(** [FlushPage(0)] on the pool whose page 0 is dirty. *)
Definition pool_flushed : BufferPoolManager :=
  after (FlushPage (-1) 0 pool_dirty) pool_dirty.

(** A fresh pool of two frames. *)
Definition pool2_fresh : BufferPoolManager := BufferPoolManager_new 2 (-1) 2 disk0.

(** A replacer of integers after [Insert(1)], [Insert(2)]. *)
Definition lru_12 : LRU.LRUReplacer nat := LRU.Insert 2%nat (LRU.Insert 1%nat LRU.empty).

(** ** Facts about the LRU replacer *)

Section LRU_facts.
Context {T : Type} `{Countable T}.
Implicit Types (r : LRU.LRUReplacer T) (l : list T) (v x : T).

Lemma erase_node_notin v l : v ∉ l → LRU.erase_node v l = l.
Proof.
  induction l as [|y l IH]; simpl; [done|].
  intros Hn. apply not_elem_of_cons in Hn as [Hne Hn].
  case_decide; [congruence|]. by rewrite IH.
Qed.

(** With one node per value, unlinking the node of [v] removes every
    occurrence of [v]. *)
Lemma erase_node_filter v l :
  NoDup l → LRU.erase_node v l = filter (λ x, x ≠ v) l.
Proof.
  induction 1 as [|y l Hy Hnd IH]; simpl; [done|].
  case_decide as Hd.
  - subst y. rewrite filter_cons_False by naive_solver.
    rewrite <- IH. symmetry. by apply erase_node_notin.
  - rewrite filter_cons_True by done. by rewrite IH.
Qed.

Lemma elem_of_erase_node v x l :
  NoDup l → x ∈ LRU.erase_node v l ↔ x ∈ l ∧ x ≠ v.
Proof. intros Hnd. rewrite erase_node_filter, list_elem_of_filter by done. tauto. Qed.

Lemma NoDup_erase_node v l : NoDup l → NoDup (LRU.erase_node v l).
Proof. intros Hnd. rewrite erase_node_filter by done. by apply NoDup_filter. Qed.

Lemma wf_empty : LRU.wf (LRU.empty : LRU.LRUReplacer T).
Proof. split; [constructor | intros v; simpl; set_solver]. Qed.

Lemma Insert_list v r :
  LRU.wf r → LRU._list (LRU.Insert v r) = v :: filter (λ x, x ≠ v) (LRU._list r).
Proof.
  intros [Hnd Hidx]. unfold LRU.Insert; simpl. f_equal.
  case_decide as Hin.
  - by apply erase_node_filter.
  - rewrite <- erase_node_filter by done. symmetry. apply erase_node_notin.
    by rewrite <- Hidx.
Qed.

Lemma wf_Insert v r : LRU.wf r → LRU.wf (LRU.Insert v r).
Proof.
  intros Hwf. pose proof (Insert_list v r Hwf) as Hl.
  destruct Hwf as [Hnd Hidx]. split.
  - rewrite Hl. constructor.
    + rewrite list_elem_of_filter. naive_solver.
    + by apply NoDup_filter.
  - intros x. rewrite Hl. simpl.
    rewrite elem_of_union, elem_of_singleton, elem_of_cons,
      list_elem_of_filter, Hidx.
    destruct (decide (x = v)); naive_solver.
Qed.

Lemma elem_of_Insert v x r :
  LRU.wf r → x ∈ LRU._list (LRU.Insert v r) ↔ x = v ∨ x ∈ LRU._list r.
Proof.
  intros Hwf. rewrite Insert_list by done.
  rewrite elem_of_cons, list_elem_of_filter.
  destruct (decide (x = v)); naive_solver.
Qed.

Lemma wf_Erase v r : LRU.wf r → LRU.wf (LRU.Erase v r).2.
Proof.
  intros [Hnd Hidx]. unfold LRU.Erase. case_decide as Hin; simpl; [|done].
  split; simpl.
  - by apply NoDup_erase_node.
  - intros x. rewrite elem_of_difference, elem_of_singleton,
      elem_of_erase_node, Hidx by done. done.
Qed.

Lemma elem_of_Erase v x r :
  LRU.wf r → x ∈ LRU._list (LRU.Erase v r).2 ↔ x ∈ LRU._list r ∧ x ≠ v.
Proof.
  intros [Hnd Hidx]. unfold LRU.Erase. case_decide as Hin; simpl.
  - by apply elem_of_erase_node.
  - rewrite <- Hidx in *. split; [|naive_solver].
    intros Hx. split; [done|]. intros ->. by apply Hin, Hidx.
Qed.

Lemma Erase_not_indexed v r : v ∉ LRU._id2node (LRU.Erase v r).2.
Proof. unfold LRU.Erase. case_decide; simpl; set_solver. Qed.

Lemma index_empty_iff r : LRU.wf r → LRU._id2node r = ∅ ↔ LRU._list r = [].
Proof.
  intros [_ Hidx]. split.
  - intros He. destruct (LRU._list r) as [|x l] eqn:El; [done|].
    exfalso. assert (x ∈ LRU._id2node r) as Hx by (apply Hidx; left).
    rewrite He in Hx. set_solver.
  - intros El. apply leibniz_equiv. apply elem_of_equiv_empty. intros x Hx.
    apply Hidx in Hx. rewrite El in Hx. by apply elem_of_nil in Hx.
Qed.

(** [Victim] on a replacer whose sequence ends in [v]. *)
Lemma Victim_snoc l v r :
  LRU.wf r → LRU._list r = l ++ [v] →
  LRU.Victim r = Done (Some (v, LRU.mkLRU l (LRU._id2node r ∖ {[ v ]}))).
Proof.
  intros Hwf El. unfold LRU.Victim.
  case_decide as He.
  - apply index_empty_iff in He; [|done]. rewrite El in He. by destruct l.
  - rewrite El, last_snoc, removelast_last. done.
Qed.

Lemma Victim_empty r : LRU.wf r → LRU._list r = [] → LRU.Victim r = Done None.
Proof.
  intros Hwf El. unfold LRU.Victim.
  rewrite decide_True; [done|]. by apply index_empty_iff.
Qed.

(** On a well-formed replacer [Victim] never trips its assertion. *)
Lemma Victim_cases r :
  LRU.wf r →
  (LRU._list r = [] ∧ LRU.Victim r = Done None)
  ∨ ∃ l v, LRU._list r = l ++ [v]
           ∧ LRU.Victim r = Done (Some (v, LRU.mkLRU l (LRU._id2node r ∖ {[ v ]}))).
Proof.
  intros Hwf. destruct (LRU._list r) as [|x l0] eqn:El using rev_ind.
  - left. split; [done|]. by apply Victim_empty.
  - right. exists l0, x. split; [done|]. by apply Victim_snoc.
Qed.

Lemma wf_Victim v r r' :
  LRU.wf r → LRU.Victim r = Done (Some (v, r')) →
  LRU.wf r' ∧ LRU._list r = LRU._list r' ++ [v].
Proof.
  intros Hwf Hv. destruct (Victim_cases r Hwf) as [[_ Hn]|(l & x & El & Hs)];
    [congruence|].
  rewrite Hs in Hv. injection Hv as <- <-. simpl. split; [|done].
  destruct Hwf as [Hnd Hidx]. rewrite El in Hnd.
  apply NoDup_app in Hnd as (Hl & Hdisj & _). split; simpl; [done|].
  intros y. rewrite elem_of_difference, elem_of_singleton, Hidx, El, elem_of_app,
    list_elem_of_singleton.
  split; [naive_solver|]. intros Hy. split; [by left|].
  intros ->. apply (Hdisj x Hy). apply list_elem_of_singleton. done.
Qed.

Lemma reachable_wf r : LRU.reachable r → LRU.wf r.
Proof.
  induction 1 as [|v r _ IH|v r r' _ IH Hv|v r _ IH].
  - apply wf_empty.
  - by apply wf_Insert.
  - by destruct (wf_Victim v r r' IH Hv).
  - by apply wf_Erase.
Qed.

Lemma Size_length r : LRU.wf r → LRU.Size r = length (LRU._list r).
Proof.
  intros [Hnd Hidx]. unfold LRU.Size.
  assert (LRU._id2node r = list_to_set (LRU._list r)) as ->.
  { apply leibniz_equiv. intros x. rewrite elem_of_list_to_set. apply Hidx. }
  by apply size_list_to_set.
Qed.

End LRU_facts.

(** ** Facts about frames and handles *)

Lemma deref_lookup s (page : nat) p : pages_ s !! page = Some p → deref s page = p.
Proof. intros Hp. unfold deref. by apply list_lookup_total_correct. Qed.

Lemma deref_out_of_range s (page : nat) :
  pages_ s !! page = None → deref s page = inhabitant.
Proof. intros Hp. unfold deref. by rewrite list_lookup_total_alt, Hp. Qed.

Lemma lookup_deref s (page : nat) :
  (page < length (pages_ s))%nat → pages_ s !! page = Some (deref s page).
Proof.
  intros Hlt. destruct (lookup_lt_is_Some_2 _ _ Hlt) as [p Hp].
  by rewrite (deref_lookup _ _ _ Hp).
Qed.

(** A handle whose frame shows a positive pin count, or a set dirty flag,
    points into the array. *)
Lemma pinned_in_range s (page : nat) :
  pin_count_ (deref s page) > 0 → (page < length (pages_ s))%nat.
Proof.
  intros Hpin. destruct (pages_ s !! page) as [p|] eqn:Hp.
  - by apply lookup_lt_Some in Hp.
  - rewrite (deref_out_of_range _ _ Hp) in Hpin. simpl in Hpin. lia.
Qed.

Lemma dirty_in_range s (page : nat) :
  is_dirty_ (deref s page) = true → (page < length (pages_ s))%nat.
Proof.
  intros Hd. destruct (pages_ s !! page) as [p|] eqn:Hp.
  - by apply lookup_lt_Some in Hp.
  - by rewrite (deref_out_of_range _ _ Hp) in Hd.
Qed.

Lemma pages_modify_eq s (page : nat) m :
  (page < length (pages_ s))%nat →
  pages_ (modify_page page m s) !! page = Some (m (deref s page)).
Proof. intros Hlt. unfold modify_page; simpl. by apply list_lookup_insert_eq. Qed.

Lemma pages_modify_ne s (page g : nat) m :
  g ≠ page → pages_ (modify_page page m s) !! g = pages_ s !! g.
Proof. intros Hne. unfold modify_page; simpl. by apply list_lookup_insert_ne. Qed.

Lemma deref_modify_eq s (page : nat) m :
  (page < length (pages_ s))%nat → deref (modify_page page m s) page = m (deref s page).
Proof. intros Hlt. apply deref_lookup. by apply pages_modify_eq. Qed.

Lemma deref_modify_ne s (page g : nat) m :
  g ≠ page → deref (modify_page page m s) g = deref s g.
Proof.
  intros Hne. unfold deref, modify_page; simpl.
  by apply list_lookup_total_insert_ne.
Qed.

Lemma length_modify s (page : nat) m :
  length (pages_ (modify_page page m s)) = length (pages_ s).
Proof. unfold modify_page; simpl. apply length_insert. Qed.

(** The setters of the other members leave the frames alone. *)
Lemma deref_set_page_table v s (g : nat) : deref (set_page_table v s) g = deref s g.
Proof. done. Qed.
Lemma deref_set_replacer v s (g : nat) : deref (set_replacer v s) g = deref s g.
Proof. done. Qed.
Lemma deref_set_free_list v s (g : nat) : deref (set_free_list v s) g = deref s g.
Proof. done. Qed.
Lemma deref_set_dirty_pages v s (g : nat) : deref (set_dirty_pages v s) g = deref s g.
Proof. done. Qed.
Lemma deref_set_disk_manager v s (g : nat) : deref (set_disk_manager v s) g = deref s g.
Proof. done. Qed.

Create Rewrite HintDb pool.
#[global] Hint Rewrite deref_set_page_table deref_set_replacer deref_set_free_list
  deref_set_dirty_pages deref_set_disk_manager : pool.
#[global] Hint Rewrite length_modify : pool.

(** ** Preservation of the invariant by the steps of the operations *)

Lemma modify_lookup_Some s (page g : nat) m p' :
  pages_ (modify_page page m s) !! g = Some p' →
  ∃ p, pages_ s !! g = Some p ∧ ((g ≠ page ∧ p' = p) ∨ (g = page ∧ p' = m p)).
Proof.
  intros Hl. destruct (decide (g = page)) as [->|Hne].
  - pose proof (lookup_lt_Some _ _ _ Hl) as Hlt. rewrite length_modify in Hlt.
    rewrite pages_modify_eq in Hl by done. injection Hl as <-.
    exists (deref s page). split; [by apply lookup_deref|by right].
  - rewrite pages_modify_ne in Hl by done. exists p'. split; [done|by left].
Qed.

Lemma deref_modify_page_id s (page g : nat) m :
  (∀ p, page_id_ (m p) = page_id_ p) →
  page_id_ (deref (modify_page page m s) g) = page_id_ (deref s g).
Proof.
  intros Hid. destruct (decide (g = page)) as [->|Hne].
  - destruct (decide (page < length (pages_ s))%nat) as [Hlt|Hge].
    + by rewrite deref_modify_eq.
    + unfold deref, modify_page; simpl. by rewrite list_insert_ge by lia.
  - by rewrite deref_modify_ne.
Qed.

(** A method that keeps the identifier and does not set the dirty flag. *)
Lemma inv_modify s (page : nat) m :
  (∀ p, page_id_ (m p) = page_id_ p) →
  (∀ p, is_dirty_ (m p) = true → is_dirty_ p = true) →
  pool_inv s → pool_inv (modify_page page m s).
Proof.
  intros Hid Hd [Hlru Htbl Hnd Hfree Hrep Hdirty]. split; simpl; try done.
  - intros k g Hk. destruct (Htbl k g Hk) as (p & Hp & Hpid).
    destruct (decide (g = page)) as [->|Hne].
    + exists (m p). rewrite list_lookup_insert_eq by (by eapply lookup_lt_Some).
      rewrite (deref_lookup _ _ _ Hp). by rewrite Hid.
    + exists p. by rewrite list_lookup_insert_ne.
  - intros g Hg. rewrite length_insert. by apply Hfree.
  - intros g Hg. rewrite deref_modify_page_id by done. by apply Hrep.
  - intros g p' Hp' Hdp'.
    apply modify_lookup_Some in Hp' as (p & Hp & [[_ ->]|[-> ->]]).
    + by apply Hdirty.
    + rewrite Hid. apply Hdirty; [done|]. by apply Hd.
Qed.

Lemma inv_set_disk_manager s dm : pool_inv s → pool_inv (set_disk_manager dm s).
Proof. intros [Hlru Htbl Hnd Hfree Hrep Hdirty]. by split. Qed.

(** Two entries of the page table never share a frame. *)
Lemma inv_table_inj s k1 k2 (page : nat) :
  pool_inv s →
  page_table_ s !! k1 = Some page → page_table_ s !! k2 = Some page → k1 = k2.
Proof.
  intros Hinv H1 H2.
  destruct (inv_table s Hinv _ _ H1) as (p1 & Hp1 & <-).
  destruct (inv_table s Hinv _ _ H2) as (p2 & Hp2 & <-).
  congruence.
Qed.

Lemma inv_table_deref s k (page : nat) :
  pool_inv s → page_table_ s !! k = Some page →
  (page < length (pages_ s))%nat ∧ page_id_ (deref s page) = k.
Proof.
  intros Hinv Hk. destruct (inv_table s Hinv _ _ Hk) as (p & Hp & <-).
  split; [by eapply lookup_lt_Some|]. by rewrite (deref_lookup _ _ _ Hp).
Qed.

Lemma inv_mark_dirty s k (page : nat) :
  pool_inv s → page_table_ s !! k = Some page →
  pool_inv (set_dirty_pages (<[k := page]> (dirty_pages_ s))
              (modify_page page (SetDirty true) s)).
Proof.
  intros Hinv Hk. pose proof Hinv as [Hlru Htbl Hnd Hfree Hrep Hdirty].
  split; simpl; try done.
  - intros k' g Hk'. destruct (Htbl k' g Hk') as (p & Hp & Hpid).
    destruct (decide (g = page)) as [->|Hne].
    + exists (SetDirty true p).
      rewrite list_lookup_insert_eq by (by eapply lookup_lt_Some).
      by rewrite (deref_lookup _ _ _ Hp).
    + exists p. by rewrite list_lookup_insert_ne.
  - intros g Hg. rewrite length_insert. by apply Hfree.
  - intros g Hg.
    change (<[page:=SetDirty true (deref s page)]> (pages_ s))
      with (pages_ (modify_page page (SetDirty true) s)).
    change (page_table_ s !! page_id_ (deref (modify_page page (SetDirty true) s) g)
            = Some g).
    rewrite deref_modify_page_id by done. by apply Hrep.
  - intros g p' Hp' Hdp'.
    change (<[page:=SetDirty true (deref s page)]> (pages_ s))
      with (pages_ (modify_page page (SetDirty true) s)) in Hp'.
    apply modify_lookup_Some in Hp' as (p & Hp & [[Hne ->]|[-> ->]]).
    + destruct (Hdirty g p Hp Hdp') as [Ht Hd]. split; [done|].
      rewrite lookup_insert_ne; [done|]. intros ->. congruence.
    + simpl. destruct (Htbl k page Hk) as (p0 & Hp0 & Hpid).
      assert (p0 = p) as -> by congruence. rewrite Hpid.
      split; [done|]. apply lookup_insert_eq.
Qed.

Lemma inv_replacer_Insert s (page : nat) :
  pool_inv s → page_table_ s !! page_id_ (deref s page) = Some page →
  pool_inv (set_replacer (LRU.Insert page (replacer_ s)) s).
Proof.
  intros [Hlru Htbl Hnd Hfree Hrep Hdirty] Hpage. split; simpl; try done.
  - by apply wf_Insert.
  - intros g Hg. apply elem_of_Insert in Hg as [->|Hg]; [done| |done].
    by apply Hrep.
Qed.

Lemma inv_flushed s k (page : nat) :
  pool_inv s → page_table_ s !! k = Some page →
  pool_inv (set_dirty_pages (delete k (dirty_pages_ s))
              (modify_page page (SetDirty false) s)).
Proof.
  intros Hinv Hk. pose proof Hinv as [Hlru Htbl Hnd Hfree Hrep Hdirty].
  pose proof (inv_modify s page (SetDirty false)) as Hm.
  destruct Hm as [Hlru' Htbl' Hnd' Hfree' Hrep' Hdirty']; try done.
  split; simpl; try done.
  intros g p' Hp' Hdp'. destruct (Hdirty' g p' Hp' Hdp') as [Ht Hd].
  split; [done|]. simpl in Hd, Ht.
  rewrite lookup_delete_ne; [done|]. intros ->.
  assert (g = page) as -> by congruence.
  apply modify_lookup_Some in Hp' as (p & Hp & [[? _]|[_ ->]]); [done|].
  done.
Qed.

Lemma inv_clear_dirty_pages s :
  pool_inv s → (∀ (f : nat) p, pages_ s !! f = Some p → is_dirty_ p = false) →
  pool_inv (set_dirty_pages ∅ s).
Proof.
  intros [Hlru Htbl Hnd Hfree Hrep Hdirty] Hclean. split; simpl; try done.
  intros f p Hp Hd. rewrite (Hclean f p Hp) in Hd. done.
Qed.

Lemma inv_table_delete s k (page : nat) :
  pool_inv s → page_table_ s !! k = Some page →
  page ∉ LRU._list (replacer_ s) → is_dirty_ (deref s page) = false →
  pool_inv (set_page_table (delete k (page_table_ s)) s).
Proof.
  intros Hinv Hk Hnrep Hclean.
  pose proof Hinv as [Hlru Htbl Hnd Hfree Hrep Hdirty].
  split; simpl; try done.
  - intros k' g Hk'. apply lookup_delete_Some in Hk' as [_ Hk']. by apply Htbl.
  - intros g Hg. split; [by apply Hfree|].
    intros k' Hk'. apply lookup_delete_Some in Hk' as [_ Hk'].
    by apply (proj2 (Hfree g Hg) k').
  - intros g Hg. rewrite deref_set_page_table.
    rewrite lookup_delete_ne; [by apply Hrep|].
    intros ->. specialize (Hrep g Hg).
    assert (g = page) as -> by congruence. done.
  - intros g p Hp Hd. destruct (Hdirty g p Hp Hd) as [Ht Hdp].
    split; [|done]. rewrite lookup_delete_ne; [done|].
    intros ->. assert (g = page) as -> by congruence.
    rewrite (deref_lookup _ _ _ Hp) in Hclean. congruence.
Qed.

(** [releaseDirty] on a frame that has just left the replacer. *)
Lemma releaseDirty_inv s (page : nat) :
  pool_inv s → page_table_ s !! page_id_ (deref s page) = Some page →
  page ∉ LRU._list (replacer_ s) → page ∉ free_list_ s →
  pool_inv (releaseDirty page s) ∧ detached (releaseDirty page s) page
  ∧ next_page_id_ (disk_manager_ (releaseDirty page s))
    = next_page_id_ (disk_manager_ s)
  ∧ (∀ k, page_table_ s !! k = None → page_table_ (releaseDirty page s) !! k = None).
Proof.
  intros Hinv Hk Hnrep Hnfree. unfold releaseDirty.
  set (s1 := if IsDirty (deref s page) then _ else s).
  assert (pool_inv s1 ∧ page_id_ (deref s1 page) = page_id_ (deref s page)
          ∧ is_dirty_ (deref s1 page) = false
          ∧ page_table_ s1 = page_table_ s ∧ replacer_ s1 = replacer_ s
          ∧ free_list_ s1 = free_list_ s
          ∧ length (pages_ s1) = length (pages_ s)
          ∧ next_page_id_ (disk_manager_ s1) = next_page_id_ (disk_manager_ s))
    as (Hinv1 & Hid1 & Hclean1 & Ht1 & Hr1 & Hf1 & Hlen1 & Hnext1).
  { subst s1. unfold IsDirty. destruct (is_dirty_ (deref s page)) eqn:Hd.
    - pose proof (dirty_in_range _ _ Hd) as Hlt.
      split; [|split; [|split]].
      + apply inv_modify; [done|done|]. by apply inv_set_disk_manager.
      + by rewrite deref_modify_page_id.
      + by rewrite deref_modify_eq.
      + repeat split; try done. by rewrite length_modify.
    - done. }
  unfold GetPageId. rewrite Hid1, Ht1.
  destruct (inv_table_deref _ _ _ Hinv Hk) as [Hlt _].
  split; [|split; [|split]].
  - rewrite <- Ht1. apply (inv_table_delete s1 _ page); try done; by rewrite ?Ht1, ?Hr1.
  - split; [|split; [|split]]; simpl.
    + by rewrite Hlen1.
    + intros k Hk'. apply lookup_delete_Some in Hk' as [Hne Hk'].
      apply Hne. by apply (inv_table_inj s _ _ page).
    + by rewrite Hf1.
    + by rewrite Hr1.
  - done.
  - intros k Hnone. simpl. apply lookup_delete_None. by right.
Qed.

Lemma acquire_frame_inv s (page : nat) s1 :
  pool_inv s → acquire_frame s = Done (Some (page, s1)) →
  pool_inv s1 ∧ detached s1 page
  ∧ next_page_id_ (disk_manager_ s1) = next_page_id_ (disk_manager_ s)
  ∧ (∀ k, page_table_ s !! k = None → page_table_ s1 !! k = None).
Proof.
  intros Hinv Hacq. pose proof Hinv as [Hlru Htbl Hnd Hfree Hrep Hdirty].
  unfold acquire_frame in Hacq.
  destruct (free_list_ s) as [|f rest] eqn:Hfl.
  - destruct (Victim_cases _ Hlru) as [[_ Hv]|(l & v & Hl & Hv)];
      rewrite Hv in Hacq; simpl in Hacq; [done|].
    injection Hacq as <- <-.
    assert (LRU.wf (LRU.mkLRU l (LRU._id2node (replacer_ s) ∖ {[v]}))) as Hwf.
    { by destruct (wf_Victim _ _ _ Hlru Hv). }
    destruct Hlru as [Hndl _]. rewrite Hl in Hndl.
    apply NoDup_app in Hndl as (_ & Hdisj & _).
    apply (releaseDirty_inv (set_replacer (LRU.mkLRU l _) s) v); simpl.
    + split; simpl; rewrite ?Hfl; try done.
      intros g Hg. apply Hrep. rewrite Hl. apply elem_of_app. by left.
    + apply Hrep. rewrite Hl. apply elem_of_app. right. by apply list_elem_of_singleton.
    + intros Hin. apply (Hdisj _ Hin). by apply list_elem_of_singleton.
    + rewrite Hfl. by apply not_elem_of_nil.
  - injection Hacq as <- <-. apply NoDup_cons in Hnd as [Hnin Hnd'].
    destruct (Hfree f) as [Hlt Hnt]; [left|].
    split; [|split; [|split]]; try done.
    + split; simpl; try done.
      intros g Hg. apply Hfree. by right.
    + split; [|split; [|split]]; simpl; try done.
      intros Hin. by apply (Hnt _ (Hrep f Hin)).
Qed.

(** [flush_entry] only clears dirty flags: a frame that is dirty afterwards
    was not the entry's frame and is as it was. *)
Lemma flush_entry_dirty_after s (e : Z * nat) (f : nat) p :
  pages_ (flush_entry s e) !! f = Some p → is_dirty_ p = true →
  pages_ s !! f = Some p ∧ e.2 ≠ f.
Proof.
  unfold flush_entry, IsDirty. intros Hp Hd.
  destruct (is_dirty_ (deref s e.2)) eqn:He.
  - apply modify_lookup_Some in Hp as (p0 & Hp0 & [[Hne ->]|[-> ->]]).
    + simpl in Hp0. split; [done|]. congruence.
    + done.
  - split; [done|]. intros Heq. rewrite Heq, (deref_lookup _ _ _ Hp) in He. congruence.
Qed.

Lemma foldl_flush_dirty_after (es : list (Z * nat)) s (f : nat) p :
  pages_ (foldl flush_entry s es) !! f = Some p → is_dirty_ p = true →
  pages_ s !! f = Some p ∧ ∀ e, e ∈ es → e.2 ≠ f.
Proof.
  revert s. induction es as [|e es IH]; simpl; intros s Hp Hd.
  - split; [done|]. intros e He. by apply elem_of_nil in He.
  - destruct (IH _ Hp Hd) as [Hp1 Hes].
    destruct (flush_entry_dirty_after _ _ _ _ Hp1 Hd) as [Hp0 He].
    split; [done|]. intros e' He'. apply elem_of_cons in He' as [->|He']; [done|].
    by apply Hes.
Qed.

Lemma flush_entry_inv s (e : Z * nat) : pool_inv s → pool_inv (flush_entry s e).
Proof.
  intros Hinv. unfold flush_entry. destruct (IsDirty _); [|done].
  apply inv_modify; [done|done|]. by apply inv_set_disk_manager.
Qed.

Lemma foldl_flush_inv (es : list (Z * nat)) s :
  pool_inv s → pool_inv (foldl flush_entry s es).
Proof.
  revert s. induction es as [|e es IH]; simpl; intros s Hinv; [done|].
  by apply IH, flush_entry_inv.
Qed.

Lemma flush_entry_write_log s (e : Z * nat) :
  write_log (disk_manager_ (flush_entry s e))
  = (if is_dirty_ (deref s e.2) then [(e.1, data_ (deref s e.2))] else [])
    ++ write_log (disk_manager_ s).
Proof. unfold flush_entry, IsDirty. by destruct (is_dirty_ (deref s e.2)). Qed.

(** What a run of [flush_entry] over a list of entries writes: one page per
    entry whose frame is dirty when the entry is visited, under the key of
    the entry. *)
Lemma foldl_flush_write_log (es : list (Z * nat)) s :
  ∃ w, write_log (disk_manager_ (foldl flush_entry s es))
       = w ++ write_log (disk_manager_ s)
     ∧ ∀ id d, (id, d) ∈ w →
         ∃ (f : nat) p, (id, f) ∈ es ∧ pages_ s !! f = Some p
                        ∧ is_dirty_ p = true ∧ data_ p = d.
Proof.
  revert s. induction es as [|e es IH]; simpl; intros s.
  - exists []. split; [done|]. intros id d Hin. by apply elem_of_nil in Hin.
  - destruct (IH (flush_entry s e)) as (w & Hw & Hall).
    assert (∀ id d, (id, d) ∈ w →
              ∃ (f : nat) p, (id, f) ∈ e :: es ∧ pages_ s !! f = Some p
                             ∧ is_dirty_ p = true ∧ data_ p = d) as Hall'.
    { intros id d Hin. destruct (Hall id d Hin) as (f & p & Hf & Hp & Hd & Hdat).
      destruct (flush_entry_dirty_after _ _ _ _ Hp Hd) as [Hp0 _].
      exists f, p. split; [by right|done]. }
    rewrite flush_entry_write_log in Hw.
    destruct (is_dirty_ (deref s e.2)) eqn:He.
    + exists (w ++ [(e.1, data_ (deref s e.2))]). split.
      * rewrite Hw. by rewrite <- app_assoc.
      * intros id d Hin. apply elem_of_app in Hin as [Hin|Hin]; [by apply Hall'|].
        apply list_elem_of_singleton in Hin. injection Hin as -> ->.
        exists e.2, (deref s e.2). split; [destruct e; left|].
        split; [|done]. apply lookup_deref. by apply dirty_in_range.
    + exists w. split; [done|]. done.
Qed.

(** ** The operations of the pool *)

Ltac unfold_FetchPage := unfold FetchPage in *.
Ltac unfold_allocatePage := unfold NewPage, allocatePage in *.
Ltac unfold_FlushPage := unfold FlushPage in *.
Ltac unfold_DeletePage := unfold DeletePage in *.
Ltac unfold_bind_frame := unfold bind_frame in *.

Section BufferPool_facts.
Variable PAGE_SIZE : nat.
Variable INVALID_PAGE_ID : page_id_t.

Local Abbreviation FetchPage := (FetchPage PAGE_SIZE INVALID_PAGE_ID).
Local Abbreviation NewPage := (NewPage PAGE_SIZE INVALID_PAGE_ID).
Local Abbreviation allocatePage := (allocatePage PAGE_SIZE INVALID_PAGE_ID).
Local Abbreviation DeletePage := (DeletePage PAGE_SIZE INVALID_PAGE_ID).
Local Abbreviation FlushPage := (FlushPage INVALID_PAGE_ID).
Local Abbreviation Reset := (Reset PAGE_SIZE INVALID_PAGE_ID).
Local Abbreviation reachable := (reachable PAGE_SIZE INVALID_PAGE_ID).
Local Abbreviation client_reachable :=
  (client_reachable PAGE_SIZE INVALID_PAGE_ID).
Local Abbreviation bind_frame := (bind_frame PAGE_SIZE INVALID_PAGE_ID).
Local Abbreviation BufferPoolManager_new :=
  (BufferPoolManager_new PAGE_SIZE INVALID_PAGE_ID).

(** *** The invariant holds in every reachable state *)

Lemma inv_new pool_size dm : pool_inv (BufferPoolManager_new pool_size dm).
Proof.
  split; simpl; try done.
  - apply wf_empty.
  - apply NoDup_seq.
  - intros f Hf. apply elem_of_seq in Hf. rewrite length_replicate.
    split; [lia|done].
  - intros f Hf. by apply elem_of_nil in Hf.
  - intros f p Hp Hd. apply lookup_replicate in Hp as [-> _]. done.
Qed.

Lemma bind_frame_inv s (page : nat) (k : page_id_t) :
  pool_inv s → detached s page → page_table_ s !! k = None →
  pool_inv (bind_frame page k s).
Proof.
  intros [Hlru Htbl Hnd Hfree Hrep Hdirty] (Hlt & Hnt & Hnf & Hnr) Hk.
  unfold_bind_frame. split; simpl; try done.
  - intros k' g Hk'. apply lookup_insert_Some in Hk' as [[<- <-]|[Hne Hk']].
    + eexists. rewrite list_lookup_insert_eq by done. done.
    + destruct (Htbl k' g Hk') as (p & Hp & Hpid). exists p.
      rewrite list_lookup_insert_ne; [done|]. intros <-. by apply (Hnt k').
  - intros g Hg. rewrite length_insert. split; [by apply Hfree|].
    intros k' Hk'. apply lookup_insert_Some in Hk' as [[_ <-]|[_ Hk']]; [done|].
    by apply (proj2 (Hfree g Hg) k').
  - intros g Hg. assert (g ≠ page) as Hne by (by intros ->).
    unfold deref; simpl. rewrite list_lookup_total_insert_ne by done.
    rewrite lookup_insert_ne; [by apply Hrep|].
    intros ->. specialize (Hrep g Hg). unfold deref in Hrep. congruence.
  - intros g p' Hp' Hd. destruct (decide (g = page)) as [->|Hne].
    + rewrite list_lookup_insert_eq in Hp' by done. by injection Hp' as <-.
    + rewrite list_lookup_insert_ne in Hp' by done.
      destruct (Hdirty g p' Hp' Hd) as [Ht Hdp]. split; [|done].
      rewrite lookup_insert_ne; [done|]. intros ->. congruence.
Qed.

(** A miss of [FetchPage] and the body of [allocatePage] are the two steps
    [acquire_frame] and [bind_frame]. *)
Lemma FetchPage_miss s (page_id : page_id_t) :
  page_id ≠ INVALID_PAGE_ID → page_table_ s !! page_id = None →
  FetchPage page_id s
  = (acquired ← acquire_frame s;
     match acquired with
     | None => Done (None, s)
     | Some (page, s1) => Done (Some page, bind_frame page page_id s1)
     end).
Proof.
  intros Hvalid Hmiss. unfold_FetchPage. rewrite decide_False by done.
  by rewrite Hmiss.
Qed.

Lemma allocatePage_steps s :
  allocatePage s
  = (acquired ← acquire_frame s;
     match acquired with
     | None => Done (None, s)
     | Some (page, s1) =>
         let id := next_page_id_ (disk_manager_ s1) in
         Done (Some (page, id),
               bind_frame page id
                 (set_disk_manager (AllocatePage (disk_manager_ s1)).2 s1))
     end).
Proof. done. Qed.

Lemma FetchPage_inv s (page_id : page_id_t) r s' :
  pool_inv s → FetchPage page_id s = Done (r, s') → pool_inv s'.
Proof.
  intros Hinv Hf.
  destruct (decide (page_id = INVALID_PAGE_ID)) as [Hi|Hvalid].
  { unfold_FetchPage. rewrite decide_True in Hf by done.
    by injection Hf as _ <-. }
  destruct (page_table_ s !! page_id) as [page|] eqn:Hfind.
  - unfold_FetchPage. rewrite decide_False, Hfind in Hf by done.
    injection Hf as _ <-. by apply inv_modify.
  - rewrite FetchPage_miss in Hf by done.
    destruct (acquire_frame s) as [[[page s1]|]|] eqn:Hacq; simpl in Hf; [| |done].
    + injection Hf as _ <-.
      destruct (acquire_frame_inv _ _ _ Hinv Hacq) as (Hinv1 & Hdet & Hn1 & Hsub).
      apply bind_frame_inv; [done|done|by apply Hsub].
    + by injection Hf as _ <-.
Qed.

Lemma allocatePage_inv s r s' :
  pool_inv s → page_table_ s !! next_page_id_ (disk_manager_ s) = None →
  allocatePage s = Done (r, s') → pool_inv s'.
Proof.
  intros Hinv Hfresh Ha. rewrite allocatePage_steps in Ha.
  destruct (acquire_frame s) as [[[page s1]|]|] eqn:Hacq; simpl in Ha; [| |done].
  - injection Ha as _ <-.
    destruct (acquire_frame_inv _ _ _ Hinv Hacq) as (Hinv1 & Hdet & Hn1 & Hsub).
    apply bind_frame_inv; simpl.
    + by apply inv_set_disk_manager.
    + done.
    + rewrite Hn1. by apply Hsub.
  - by injection Ha as _ <-.
Qed.

Lemma UnpinPage_inv s (page_id : page_id_t) is_dirty :
  pool_inv s → pool_inv (UnpinPage page_id is_dirty s).2.
Proof.
  intros Hinv. unfold UnpinPage.
  destruct (page_table_ s !! page_id) as [page|] eqn:Hfind; [|done].
  case_decide as Hpin; [|done].
  assert (pool_inv (modify_page page DecreasePinCount s)) as Hinv1
    by (by apply inv_modify).
  destruct (inv_table_deref _ _ _ Hinv Hfind) as [Hlt Hid].
  case_decide as Hz; [|done]. simpl.
  destruct is_dirty.
  - refine (inv_replacer_Insert
              (set_dirty_pages _ (modify_page page (SetDirty true) _)) page _ _).
    + by apply (inv_mark_dirty (modify_page page DecreasePinCount s) page_id page).
    + autorewrite with pool. rewrite !deref_modify_page_id by done.
      simpl. by rewrite Hid.
  - refine (inv_replacer_Insert (modify_page page DecreasePinCount s) page _ _);
      [done|].
    rewrite deref_modify_page_id by done. simpl. by rewrite Hid.
Qed.

Lemma FlushPage_inv s (page_id : page_id_t) r s' :
  pool_inv s → FlushPage page_id s = Done (r, s') → pool_inv s'.
Proof.
  intros Hinv Hf. unfold_FlushPage.
  case_decide; [by injection Hf as _ <-|].
  destruct (page_table_ s !! page_id) as [page|] eqn:Hfind; [|done].
  repeat case_decide; try done.
  destruct (IsDirty (deref s page)); [|by injection Hf as _ <-].
  simpl in Hf. destruct (dirty_pages_ s !! page_id); [|done].
  injection Hf as _ <-.
  apply (inv_flushed
           (set_disk_manager
              (WritePage page_id (GetData (deref s page)) (disk_manager_ s)) s));
    [|done].
  by apply inv_set_disk_manager.
Qed.

Lemma FlushAllPages_inv s : pool_inv s → pool_inv (FlushAllPages s).
Proof.
  intros Hinv. unfold FlushAllPages. apply inv_clear_dirty_pages.
  - by apply foldl_flush_inv.
  - intros f p Hp. destruct (is_dirty_ p) eqn:Hd; [|done]. exfalso.
    destruct (foldl_flush_dirty_after _ _ _ _ Hp Hd) as [Hp0 Hes].
    destruct (inv_dirty _ Hinv _ _ Hp0 Hd) as [_ Hdp].
    apply elem_of_map_to_list in Hdp. by apply (Hes _ Hdp).
Qed.

Lemma DeletePage_inv s (page_id : page_id_t) :
  pool_inv s → pool_inv (DeletePage page_id s).2.
Proof.
  intros Hinv. pose proof Hinv as [Hlru Htbl Hnd Hfree Hrep Hdirty].
  unfold_DeletePage.
  destruct (page_table_ s !! page_id) as [page|] eqn:Hfind; [|done].
  case_decide as Hpin; [|done].
  destruct (inv_table_deref _ _ _ Hinv Hfind) as [Hlt Hid].
  assert (page ∉ free_list_ s) as Hnf.
  { intros Hin. by apply (proj2 (Hfree _ Hin) page_id). }
  split; simpl.
  - by apply wf_Erase.
  - intros k g Hk. apply lookup_delete_Some in Hk as [Hne Hk].
    destruct (Htbl k g Hk) as (p & Hp & Hpid). exists p.
    rewrite list_lookup_insert_ne; [done|]. intros <-.
    by apply Hne, (inv_table_inj s _ _ page).
  - apply NoDup_app. split; [done|]. split; [|apply NoDup_singleton].
    intros g Hg Hin. apply list_elem_of_singleton in Hin as ->. done.
  - intros g Hg. rewrite length_insert.
    apply elem_of_app in Hg as [Hg|Hg].
    + split; [by apply Hfree|]. intros k Hk.
      apply lookup_delete_Some in Hk as [_ Hk]. by apply (proj2 (Hfree g Hg) k).
    + apply list_elem_of_singleton in Hg as ->. split; [done|].
      intros k Hk. apply lookup_delete_Some in Hk as [Hne Hk].
      by apply Hne, (inv_table_inj s _ _ page).
  - intros g Hg. apply elem_of_Erase in Hg as [Hg Hne]; [|done].
    unfold deref; simpl. rewrite list_lookup_total_insert_ne by done.
    specialize (Hrep g Hg). unfold deref in Hrep.
    rewrite lookup_delete_ne; [done|]. intros Heq. rewrite <- Heq in Hrep.
    congruence.
  - intros g p Hp Hd. destruct (decide (g = page)) as [->|Hne].
    + rewrite list_lookup_insert_eq in Hp by done. by injection Hp as <-.
    + rewrite list_lookup_insert_ne in Hp by done.
      destruct (Hdirty g p Hp Hd) as [Ht Hdp].
      assert (page_id ≠ page_id_ p) by (intros ->; congruence).
      by rewrite !lookup_delete_ne.
Qed.

Lemma reachable_inv s : reachable s → pool_inv s.
Proof.
  induction 1 as [n dm|s k r s' _ IH Hf|s r s' _ IH Hfresh Hn|s k d _ IH
                 |s k r s' _ IH Hf|s _ IH|s k _ IH|s page d _ IH Hpin Hlen].
  - apply inv_new.
  - by eapply FetchPage_inv.
  - by eapply allocatePage_inv.
  - by apply UnpinPage_inv.
  - by eapply FlushPage_inv.
  - by apply FlushAllPages_inv.
  - by apply DeletePage_inv.
  - by apply inv_modify.
Qed.

(** *** Callers that fetch existing pages keep the allocator fresh *)

Lemma table_within_refl s : table_within s s.
Proof. split; [done|lia]. Qed.

Lemma table_within_trans s1 s2 s3 :
  table_within s1 s2 → table_within s2 s3 → table_within s1 s3.
Proof. intros [H1 Hn1] [H2 Hn2]. split; [auto|lia]. Qed.

Lemma table_within_allocated s s' :
  table_allocated s → table_within s s' → table_allocated s'.
Proof.
  intros Ha [Hsub Hle] k f Hk.
  destruct (page_table_ s !! k) as [g|] eqn:Hg.
  - specialize (Ha k g Hg). lia.
  - rewrite (Hsub k Hg) in Hk. done.
Qed.

Lemma flush_entry_within s (e : Z * nat) : table_within s (flush_entry s e).
Proof.
  unfold flush_entry. destruct (IsDirty _); [|apply table_within_refl].
  split; simpl; [done|lia].
Qed.

Lemma foldl_flush_within (es : list (Z * nat)) s :
  table_within s (foldl flush_entry s es).
Proof.
  revert s. induction es as [|e es IH]; simpl; intros s.
  - apply table_within_refl.
  - eapply table_within_trans; [apply flush_entry_within|apply IH].
Qed.

Lemma UnpinPage_within s (page_id : page_id_t) is_dirty :
  table_within s (UnpinPage page_id is_dirty s).2.
Proof.
  unfold UnpinPage. destruct (page_table_ s !! page_id); [|apply table_within_refl].
  case_decide; [|apply table_within_refl].
  case_decide; [destruct is_dirty|]; split; simpl; done || lia.
Qed.

Lemma bind_frame_allocated s (page : nat) (k : page_id_t) :
  table_allocated s → k < next_page_id_ (disk_manager_ s) →
  table_allocated (bind_frame page k s).
Proof.
  intros Ha Hk k' f Hk'. unfold_bind_frame. simpl in *.
  apply lookup_insert_Some in Hk' as [[<- _]|[_ Hk']]; [done|]. by eapply Ha.
Qed.

Lemma client_reachable_reachable s :
  client_reachable s → reachable s ∧ table_allocated s.
Proof.
  induction 1 as [n dm|s k r s' _ [IH Ha] [_ Hk] Hf|s r s' _ [IH Ha] Hn
                 |s k d _ [IH Ha]|s k r s' _ [IH Ha] Hf|s _ [IH Ha]
                 |s k _ [IH Ha]|s page d _ [IH Ha] Hpin Hlen].
  - split; [apply reach_new|]. intros k f Hk. done.
  - split; [by eapply reach_FetchPage|].
    pose proof (reachable_inv _ IH) as Hinv.
    destruct (decide (k = INVALID_PAGE_ID)) as [Hi|Hvalid].
    { unfold_FetchPage. rewrite decide_True in Hf by done. by injection Hf as _ <-. }
    destruct (page_table_ s !! k) as [page|] eqn:Hfind.
    + unfold_FetchPage. rewrite decide_False, Hfind in Hf by done.
      by injection Hf as _ <-.
    + rewrite FetchPage_miss in Hf by done.
      destruct (acquire_frame s) as [[[page s1]|]|] eqn:Hacq; simpl in Hf; [| |done].
      * injection Hf as _ <-.
        destruct (acquire_frame_inv _ _ _ Hinv Hacq) as (_ & _ & Hn1 & Hsub).
        apply bind_frame_allocated; [|by rewrite Hn1].
        apply (table_within_allocated s); [done|]. split; [done|lia].
      * by injection Hf as _ <-.
  - assert (page_table_ s !! next_page_id_ (disk_manager_ s) = None) as Hfresh.
    { destruct (page_table_ s !! next_page_id_ (disk_manager_ s)) as [g|] eqn:Hg;
        [|done].
      specialize (Ha _ _ Hg). lia. }
    split; [by eapply reach_NewPage|].
    pose proof (reachable_inv _ IH) as Hinv.
    change (allocatePage s = Done (r, s')) in Hn.
    rewrite allocatePage_steps in Hn.
    destruct (acquire_frame s) as [[[page s1]|]|] eqn:Hacq; simpl in Hn; [| |done].
    + injection Hn as _ <-.
      destruct (acquire_frame_inv _ _ _ Hinv Hacq) as (_ & _ & Hn1 & Hsub).
      apply bind_frame_allocated; simpl; [|lia].
      apply (table_within_allocated s); [done|]. split; simpl; [done|lia].
    + by injection Hn as _ <-.
  - split; [by apply reach_UnpinPage|].
    eapply table_within_allocated; [done|apply UnpinPage_within].
  - split; [by eapply reach_FlushPage|].
    unfold_FlushPage. case_decide; [by injection Hf as _ <-|].
    destruct (page_table_ s !! k) as [page|] eqn:Hfind; [|done].
    repeat case_decide; try done.
    destruct (IsDirty (deref s page)); [|by injection Hf as _ <-].
    simpl in Hf. destruct (dirty_pages_ s !! k); [|done].
    by injection Hf as _ <-.
  - split; [by apply reach_FlushAllPages|].
    apply (table_within_allocated s); [done|].
    destruct (foldl_flush_within (map_to_list (dirty_pages_ s)) s) as [Hsub Hle].
    split; simpl; done.
  - split; [by apply reach_DeletePage|].
    apply (table_within_allocated s); [done|]. unfold_DeletePage.
    destruct (page_table_ s !! k) as [page|] eqn:Hfind; [|apply table_within_refl].
    case_decide; [|apply table_within_refl].
    split; simpl; [|lia]. intros k' Hk'. apply lookup_delete_None. by right.
  - split; [by apply reach_write|]. done.
Qed.

(** C10.  A call of [FetchPage] that finds the identifier in the page table
    returns the mapped frame and changes nothing but the pin count of that
    frame, which grows by one: the buffer, the identifier and the dirty
    flag of the frame, every other frame, the page table, the free list,
    the dirty set, the replacer and the disk are as before. *)
Theorem FetchPage_hit_frame_effect s (page_id : page_id_t) (page : nat) p :
  page_id ≠ INVALID_PAGE_ID →
  page_table_ s !! page_id = Some page →
  pages_ s !! page = Some p →
  ∃ s', FetchPage page_id s = Done (Some page, s')
    ∧ pages_ s' !! page
      = Some (mkPage (data_ p) (page_id_ p) (pin_count_ p + 1) (is_dirty_ p))
    ∧ (∀ g : nat, g ≠ page → pages_ s' !! g = pages_ s !! g)
    ∧ length (pages_ s') = length (pages_ s)
    ∧ page_table_ s' = page_table_ s
    ∧ free_list_ s' = free_list_ s
    ∧ dirty_pages_ s' = dirty_pages_ s
    ∧ replacer_ s' = replacer_ s
    ∧ disk_manager_ s' = disk_manager_ s
    ∧ pool_size_ s' = pool_size_ s.
Proof.
  intros Hvalid Hfind Hp. eexists. split.
  { unfold_FetchPage. rewrite decide_False by done. by rewrite Hfind. }
  pose proof (lookup_lt_Some _ _ _ Hp) as Hlt.
  split; [|split; [|split]].
  - rewrite pages_modify_eq by done. by rewrite (deref_lookup _ _ _ Hp).
  - intros g Hg. by apply pages_modify_ne.
  - apply length_modify.
  - done.
Qed.

(** C5.  When the free list is empty and the replacer holds no entry,
    [FetchPage] of an identifier that is not in the page table and
    [NewPage] both return null and leave the whole state as it was; in
    particular no frame is evicted and no identifier is allocated. *)
Theorem exhausted_pool_returns_null s (page_id : page_id_t) :
  free_list_ s = [] →
  LRU.Size (replacer_ s) = 0%nat →
  page_table_ s !! page_id = None →
  FetchPage page_id s = Done (None, s) ∧ NewPage s = Done (None, s).
Proof.
  intros Hfree Hsize Hmiss.
  assert (LRU._id2node (replacer_ s) = ∅) as Hempty.
  { apply leibniz_equiv, size_empty_iff. exact Hsize. }
  assert (LRU.Victim (replacer_ s) = Done None) as Hvictim.
  { unfold LRU.Victim. by rewrite decide_True. }
  split.
  - unfold_FetchPage. case_decide; [done|].
    rewrite Hmiss, Hfree. simpl. by rewrite Hvictim.
  - unfold_allocatePage.
    rewrite Hfree. simpl. by rewrite Hvictim.
Qed.

(** C6.  [UnpinPage] returns [true] exactly when the identifier is in the
    page table and the pin count of its frame is positive.  In that case
    the pin count drops by one and the buffer, the identifier, the other
    frames, the page table, the free list and the disk stay as they were;
    if the count reaches 0 the frame is inserted into the replacer, and the
    dirty flag becomes the old flag or [is_dirty], the identifier being
    recorded in the dirty set when [is_dirty] holds; if the count stays
    positive, the flag, the replacer and the dirty set are untouched.  When
    it returns [false] the state is unchanged. *)
Theorem UnpinPage_contract s (page_id : page_id_t) (is_dirty : bool) :
  let r := UnpinPage page_id is_dirty s in
  (r.1 = true ↔
     ∃ page : nat, page_table_ s !! page_id = Some page
                   ∧ pin_count_ (deref s page) > 0)
  ∧ (r.1 = false → r.2 = s)
  ∧ (∀ page : nat,
       page_table_ s !! page_id = Some page →
       pin_count_ (deref s page) > 0 →
       let p := deref s page in
       let p' := deref r.2 page in
       pin_count_ p' = pin_count_ p - 1
       ∧ data_ p' = data_ p
       ∧ page_id_ p' = page_id_ p
       ∧ (∀ g : nat, g ≠ page → pages_ r.2 !! g = pages_ s !! g)
       ∧ page_table_ r.2 = page_table_ s
       ∧ free_list_ r.2 = free_list_ s
       ∧ disk_manager_ r.2 = disk_manager_ s
       ∧ (pin_count_ p - 1 = 0 →
            is_dirty_ p' = is_dirty_ p || is_dirty
            ∧ replacer_ r.2 = LRU.Insert page (replacer_ s)
            ∧ dirty_pages_ r.2
              = if is_dirty then <[page_id := page]> (dirty_pages_ s)
                else dirty_pages_ s)
       ∧ (pin_count_ p - 1 ≠ 0 →
            is_dirty_ p' = is_dirty_ p
            ∧ replacer_ r.2 = replacer_ s
            ∧ dirty_pages_ r.2 = dirty_pages_ s)).
Proof.
  unfold UnpinPage.
  destruct (page_table_ s !! page_id) as [page|] eqn:Hfind; simpl.
  2:{ split; [|split]; [|done|done]. split; [done|]. by intros (? & ? & _). }
  unfold GetPinCount.
  destruct (decide (pin_count_ (deref s page) > 0)) as [Hpin|Hpin]; simpl.
  2:{ split; [|split]; [|done|].
      - split; [done|]. intros (? & [= <-] & ?). done.
      - intros ? [= <-] ?. done. }
  pose proof (pinned_in_range _ _ Hpin) as Hlt.
  rewrite (deref_modify_eq _ _ DecreasePinCount Hlt). simpl.
  destruct (decide (pin_count_ (deref s page) - 1 = 0)) as [Hz|Hz]; simpl.
  - split; [|split]; [split; [eauto|done]|done|].
    intros ? [= <-] _.
    destruct is_dirty; simpl; autorewrite with pool.
    + rewrite deref_modify_eq by (by rewrite length_modify).
      rewrite deref_modify_eq by done. simpl.
      rewrite orb_true_r.
      repeat split; try done; try lia.
      intros g Hg. by rewrite !list_lookup_insert_ne.
    + rewrite deref_modify_eq by done. simpl. rewrite orb_false_r.
      repeat split; try done; try lia.
      intros g Hg. by rewrite list_lookup_insert_ne.
  - split; [|split]; [split; [eauto|done]|done|].
    intros ? [= <-] _.
    rewrite deref_modify_eq by done. simpl.
    repeat split; try done; try lia.
    intros g Hg. by rewrite list_lookup_insert_ne.
Qed.

(** C8.  [DeletePage] of an identifier that is in the page table on a frame
    with pin count 0 removes the identifier from the page table, erases the
    frame from the replacer, erases the identifier from the dirty set
    without a write to disk, has the disk manager deallocate the page,
    resets the frame and appends it to the free list; afterwards the lookup
    of the identifier fails and the free list is one frame longer. *)
Theorem DeletePage_unpinned_effect s (page_id : page_id_t) (page : nat) :
  page_table_ s !! page_id = Some page →
  pin_count_ (deref s page) = 0 →
  let s' := (DeletePage page_id s).2 in
  page_table_ s' = delete page_id (page_table_ s)
  ∧ page_table_ s' !! page_id = None
  ∧ replacer_ s' = (LRU.Erase page (replacer_ s)).2
  ∧ (page ∉ LRU._id2node (replacer_ s'))
  ∧ (LRU.wf (replacer_ s) → page ∉ LRU._list (replacer_ s'))
  ∧ dirty_pages_ s' = delete page_id (dirty_pages_ s)
  ∧ write_log (disk_manager_ s') = write_log (disk_manager_ s)
  ∧ disk_pages (disk_manager_ s') = disk_pages (disk_manager_ s)
  ∧ dealloc_log (disk_manager_ s') = page_id :: dealloc_log (disk_manager_ s)
  ∧ pages_ s' = <[page := Reset (deref s page)]> (pages_ s)
  ∧ free_list_ s' = free_list_ s ++ [page]
  ∧ length (free_list_ s') = S (length (free_list_ s)).
Proof.
  intros Hfind Hpin. unfold_DeletePage. rewrite Hfind.
  unfold GetPinCount. rewrite decide_True by done. simpl.
  repeat split; try done.
  - apply lookup_delete_eq.
  - apply Erase_not_indexed.
  - intros Hwf Hin. apply elem_of_Erase in Hin; [|done]. by destruct Hin.
  - rewrite length_app. simpl. lia.
Qed.

(** C7.  In every reachable state, [FlushAllPages] leaves the dirty set
    empty and every frame clean, and each page it writes to disk is the
    buffer of a frame that an entry of the dirty set refers to and that was
    dirty before the call.  The proof rests on [reachable_inv]: a dirty
    frame is recorded in the dirty set under its identifier. *)
Theorem FlushAllPages_cleans_pool s :
  reachable s →
  let s' := FlushAllPages s in
  dirty_pages_ s' = ∅
  ∧ (∀ (f : nat) p, pages_ s' !! f = Some p → is_dirty_ p = false)
  ∧ ∃ w, write_log (disk_manager_ s') = w ++ write_log (disk_manager_ s)
       ∧ ∀ id d, (id, d) ∈ w →
           ∃ (f : nat) p, dirty_pages_ s !! id = Some f ∧ pages_ s !! f = Some p
                          ∧ is_dirty_ p = true ∧ data_ p = d.
Proof.
  intros Hreach. pose proof (reachable_inv _ Hreach) as Hinv.
  pose proof (FlushAllPages_inv _ Hinv) as Hinv'.
  split; [done|]. split.
  - intros f p Hp. destruct (is_dirty_ p) eqn:Hd; [|done].
    destruct (inv_dirty _ Hinv' _ _ Hp Hd) as [_ Hdp]. simpl in Hdp.
    by rewrite lookup_empty in Hdp.
  - destruct (foldl_flush_write_log (map_to_list (dirty_pages_ s)) s)
      as (w & Hw & Hall).
    exists w. split; [done|]. intros id d Hin.
    destruct (Hall id d Hin) as (f & p & Hf & Hp & Hd & Hdat).
    exists f, p. by apply elem_of_map_to_list in Hf.
Qed.

End BufferPool_facts.

(** ** The contract of the LRU replacer *)

(** C9.  In a replacer that started empty no value occurs twice and [Size]
    is the length of the sequence; [Victim] returns [false] exactly when the
    replacer is empty, and otherwise removes and returns the value at the
    back of the sequence; [Insert(v)] removes the occurrence of [v], if any,
    and puts [v] at the front. *)
Theorem LRU_replacer_contract {T : Type} `{Countable T} (r : LRU.LRUReplacer T) :
  LRU.reachable r →
  NoDup (LRU._list r)
  ∧ LRU.Size r = length (LRU._list r)
  ∧ (LRU.Victim r = Done None ↔ LRU.Size r = 0%nat)
  ∧ (∀ l v, LRU._list r = l ++ [v] →
       ∃ r', LRU.Victim r = Done (Some (v, r'))
             ∧ LRU._list r' = l ∧ LRU.Size r' = length l)
  ∧ (∀ v, LRU._list (LRU.Insert v r) = v :: filter (λ x, x ≠ v) (LRU._list r)).
Proof.
  intros Hreach. pose proof (reachable_wf r Hreach) as Hwf.
  split; [by destruct Hwf|]. split; [by apply Size_length|]. split; [|split].
  - rewrite Size_length by done. split.
    + intros Hv. destruct (Victim_cases r Hwf) as [[-> _]|(l & v & _ & Hs)];
        [done|congruence].
    + intros Hlen. apply Victim_empty; [done|]. by apply nil_length_inv.
  - intros l v Hl. eexists. split; [by apply Victim_snoc|].
    split; [done|].
    destruct (wf_Victim v r _ Hwf (Victim_snoc l v r Hwf Hl)) as [Hwf' _].
    by rewrite Size_length.
  - intros v. by apply Insert_list.
Qed.

Lemma LRU_replacer_contract_witness :
  LRU.reachable lru_12
  ∧ NoDup (LRU._list lru_12)
  ∧ LRU.Size lru_12 = 2%nat
  ∧ ∃ r', LRU.Victim lru_12 = Done (Some (1%nat, r')) ∧ LRU._list r' = [2%nat].
Proof.
  assert (LRU.reachable lru_12) as Hreach.
  { apply LRU.reach_Insert, LRU.reach_Insert, LRU.reach_empty. }
  split; [exact Hreach|].
  destruct (LRU_replacer_contract lru_12 Hreach) as (Hnd & Hsize & _ & Hback & _).
  split; [exact Hnd|]. split; [exact Hsize|].
  destruct (Hback [2%nat] 1%nat eq_refl) as (r' & Hv & Hl & _).
  exists r'. split; [exact Hv|exact Hl].
Defined.

(** ** The operations on the concrete pools *)

Lemma pool_pinned_reachable : reachable 2 (-1) pool_pinned.
Proof.
  apply (reach_NewPage 2 (-1) pool_fresh (Some (0%nat, 0)) pool_pinned).
  - apply reach_new.
  - reflexivity.
  - reflexivity.
Defined.

Lemma pool_dirty_reachable : reachable 2 (-1) pool_dirty.
Proof. apply (reach_UnpinPage 2 (-1) pool_pinned 0 true), pool_pinned_reachable. Defined.

Lemma FetchPage_hit_frame_effect_witness :
  page_table_ pool_pinned !! 0 = Some 0%nat
  ∧ pages_ pool_pinned !! 0%nat = Some (mkPage [Byte.x00; Byte.x00] 0 1 false)
  ∧ ∃ s', FetchPage 2 (-1) 0 pool_pinned = Done (Some 0%nat, s')
          ∧ pages_ s' !! 0%nat = Some (mkPage [Byte.x00; Byte.x00] 0 2 false)
          ∧ replacer_ s' = replacer_ pool_pinned.
Proof.
  split; [reflexivity|]. split; [reflexivity|].
  destruct (FetchPage_hit_frame_effect 2 (-1) pool_pinned 0 0%nat
              (mkPage [Byte.x00; Byte.x00] 0 1 false))
    as (s' & Hf & Hp & _ & _ & _ & _ & _ & Hr & _);
    [lia|reflexivity|reflexivity|].
  exists s'. split; [exact Hf|]. split; [exact Hp|exact Hr].
Defined.

Lemma exhausted_pool_returns_null_witness :
  free_list_ pool_pinned = []
  ∧ LRU.Size (replacer_ pool_pinned) = 0%nat
  ∧ page_table_ pool_pinned !! 7 = None
  ∧ FetchPage 2 (-1) 7 pool_pinned = Done (None, pool_pinned)
  ∧ NewPage 2 (-1) pool_pinned = Done (None, pool_pinned).
Proof.
  split; [reflexivity|]. split; [reflexivity|]. split; [reflexivity|].
  apply (exhausted_pool_returns_null 2 (-1) pool_pinned 7); reflexivity.
Defined.

Lemma UnpinPage_contract_witness :
  (UnpinPage 0 true pool_pinned).1 = true
  ∧ pin_count_ (deref pool_dirty 0) = 0
  ∧ is_dirty_ (deref pool_dirty 0) = true
  ∧ replacer_ pool_dirty = LRU.Insert 0%nat (replacer_ pool_pinned)
  ∧ dirty_pages_ pool_dirty = <[0 := 0%nat]> (dirty_pages_ pool_pinned).
Proof.
  destruct (UnpinPage_contract pool_pinned 0 true) as (Hret & _ & Heff).
  split.
  { apply Hret. exists 0%nat. split; [reflexivity|]. simpl. lia. }
  destruct (Heff 0%nat) as (Hpin & _ & _ & _ & _ & _ & _ & Hzero & _);
    [reflexivity|simpl; lia|].
  split; [exact Hpin|].
  destruct Hzero as (Hd & Hr & Hdp); [reflexivity|].
  split; [exact Hd|]. split; [exact Hr|exact Hdp].
Defined.

(** Scenario 5 of the specification: [NewPage → 0], [UnpinPage(0, false)],
    [DeletePage(0)] on a pool of one frame. *)
Lemma DeletePage_unpinned_effect_witness :
  page_table_ pool_unpinned !! 0 = Some 0%nat
  ∧ pin_count_ (deref pool_unpinned 0) = 0
  ∧ page_table_ pool_deleted !! 0 = None
  ∧ length (free_list_ pool_deleted) = 1%nat
  ∧ dealloc_log (disk_manager_ pool_deleted) = [0].
Proof.
  split; [reflexivity|]. split; [reflexivity|].
  destruct (DeletePage_unpinned_effect 2 (-1) pool_unpinned 0 0%nat)
    as (_ & Hmiss & _ & _ & _ & _ & _ & _ & Hdealloc & _ & _ & Hlen);
    [reflexivity|reflexivity|].
  split; [exact Hmiss|]. split; [exact Hlen|exact Hdealloc].
Defined.

Lemma FlushAllPages_cleans_pool_witness :
  reachable 2 (-1) pool_dirty
  ∧ is_dirty_ (deref pool_dirty 0) = true
  ∧ dirty_pages_ (FlushAllPages pool_dirty) = ∅
  ∧ ∀ (f : nat) p, pages_ (FlushAllPages pool_dirty) !! f = Some p → is_dirty_ p = false.
Proof.
  split; [exact pool_dirty_reachable|]. split; [reflexivity|].
  destruct (FlushAllPages_cleans_pool 2 (-1) pool_dirty pool_dirty_reachable)
    as (Hset & Hclean & _).
  split; [exact Hset|exact Hclean].
Defined.

(** ** Where the code departs from its contract *)

(** C1.  A hit of [FetchPage] never touches the replacer.  [NewPage → 0],
    [UnpinPage(0, false)], [FetchPage(0)] on a pool of one frame: the hit
    raises the pin count to 1 and leaves the frame in the replacer, so the
    next [NewPage] takes the pinned frame as its victim and rebinds it to
    page 1. *)
Theorem FetchPage_hit_leaves_frame_in_replacer :
  (∀ PAGE_SIZE INVALID_PAGE_ID s (page_id : page_id_t) (page : nat),
     page_id ≠ INVALID_PAGE_ID → page_table_ s !! page_id = Some page →
     ∃ s', FetchPage PAGE_SIZE INVALID_PAGE_ID page_id s = Done (Some page, s')
           ∧ replacer_ s' = replacer_ s)
  ∧ reachable 2 (-1) pool_unpinned
  ∧ pin_count_ (deref pool_unpinned 0) = 0
  ∧ LRU._list (replacer_ pool_unpinned) = [0%nat]
  ∧ FetchPage 2 (-1) 0 pool_unpinned = Done (Some 0%nat, pool_refetched)
  ∧ pin_count_ (deref pool_refetched 0) = 1
  ∧ LRU._list (replacer_ pool_refetched) = [0%nat]
  ∧ ∃ s, NewPage 2 (-1) pool_refetched = Done (Some (0%nat, 1), s)
         ∧ page_table_ s !! 0 = None
         ∧ page_id_ (deref s 0) = 1.
Proof.
  split.
  { intros PAGE_SIZE INVALID_PAGE_ID s page_id page Hvalid Hfind. eexists.
    unfold FetchPage. rewrite decide_False, Hfind by done. done. }
  split.
  { apply (reach_UnpinPage 2 (-1) pool_pinned 0 false), pool_pinned_reachable. }
  split; [reflexivity|]. split; [reflexivity|]. split; [reflexivity|].
  split; [reflexivity|]. split; [reflexivity|].
  exists (after (NewPage 2 (-1) pool_refetched) pool_refetched).
  split; [reflexivity|]. split; reflexivity.
Qed.

(** C2.  [releaseDirty] never touches the dirty set.  [NewPage → 0],
    [UnpinPage(0, true)], [NewPage → 1] on a pool of one frame: the dirty
    victim is written back, its flag is cleared and page 0
    leaves the page table, but the dirty set keeps the entry of page 0.  Once
    the frame is dirty again on behalf of page 1, visiting that entry writes
    the buffer of page 1 to disk under identifier 0. *)
Theorem eviction_keeps_dirty_set_entry :
  (∀ s (page : nat), dirty_pages_ (releaseDirty page s) = dirty_pages_ s)
  ∧ reachable 2 (-1) pool_dirty
  ∧ is_dirty_ (deref pool_dirty 0) = true
  ∧ NewPage 2 (-1) pool_dirty = Done (Some (0%nat, 1), pool_evicted)
  ∧ write_log (disk_manager_ pool_evicted) = [(0, [Byte.x00; Byte.x00])]
  ∧ is_dirty_ (deref pool_evicted 0) = false
  ∧ page_table_ pool_evicted !! 0 = None
  ∧ dirty_pages_ pool_evicted !! 0 = Some 0%nat
  ∧ page_id_ (deref pool_rewritten 0) = 1
  ∧ dirty_pages_ pool_rewritten !! 0 = Some 0%nat
  ∧ write_log (disk_manager_ (flush_entry pool_rewritten (0, 0%nat)))
    = [(0, [Byte.x58; Byte.x59]); (0, [Byte.x00; Byte.x00])].
Proof.
  split.
  { intros s page. unfold releaseDirty. by destruct (IsDirty (deref s page)). }
  split; [exact pool_dirty_reachable|]. repeat split; reflexivity.
Qed.

(** C3.  [DeletePage] returns [false] on every path; on the pool whose page 0
    is unpinned it deletes the page and still returns [false]. *)
Theorem DeletePage_always_returns_false :
  (∀ PAGE_SIZE INVALID_PAGE_ID s (page_id : page_id_t),
     (DeletePage PAGE_SIZE INVALID_PAGE_ID page_id s).1 = false)
  ∧ page_table_ pool_unpinned !! 0 = Some 0%nat
  ∧ pin_count_ (deref pool_unpinned 0) = 0
  ∧ DeletePage 2 (-1) 0 pool_unpinned = (false, pool_deleted)
  ∧ page_table_ pool_deleted !! 0 = None
  ∧ free_list_ pool_deleted = [0%nat].
Proof.
  split.
  { intros PAGE_SIZE INVALID_PAGE_ID s page_id. unfold DeletePage.
    destruct (page_table_ s !! page_id); [|done]. by case_decide. }
  repeat split; reflexivity.
Qed.

(** C4.  [FlushPage] of a valid identifier that is not in the page table
    dereferences the null frame handle in its first assertion; so does
    [FlushPage(0)] on a fresh pool. *)
Theorem FlushPage_absent_dereferences_null :
  (∀ INVALID_PAGE_ID s (page_id : page_id_t),
     page_id ≠ INVALID_PAGE_ID → page_table_ s !! page_id = None →
     FlushPage INVALID_PAGE_ID page_id s = Fault NullDereference)
  ∧ page_table_ pool_fresh !! 0 = None
  ∧ FlushPage (-1) 0 pool_fresh = Fault NullDereference.
Proof.
  split.
  { intros INVALID_PAGE_ID s page_id Hvalid Hmiss. unfold FlushPage.
    rewrite decide_False, Hmiss by done. done. }
  split; reflexivity.
Qed.

(** ** Further properties of the LRU replacer *)

Section LRU_more.
Context {T : Type} `{Countable T}.
Implicit Types (r : LRU.LRUReplacer T) (l : list T) (v x : T).

Lemma filter_ne_notin v l : v ∉ l → filter (λ x, x ≠ v) l = l.
Proof.
  induction l as [|y l IH]; intros Hn; [done|].
  apply not_elem_of_cons in Hn as [Hne Hn].
  rewrite filter_cons_True by done. by rewrite IH.
Qed.

Lemma length_filter_ne v l :
  NoDup l → v ∈ l → S (length (filter (λ x, x ≠ v) l)) = length l.
Proof.
  induction 1 as [|y l Hy Hnd IH]; intros Hin; [by apply elem_of_nil in Hin|].
  destruct (decide (y = v)) as [->|Hne].
  - rewrite filter_cons_False by naive_solver. by rewrite filter_ne_notin.
  - rewrite filter_cons_True by done. simpl. f_equal. apply IH.
    apply elem_of_cons in Hin as [->|Hin]; done.
Qed.

Lemma Erase_list v r :
  LRU.wf r → LRU._list (LRU.Erase v r).2 = filter (λ x, x ≠ v) (LRU._list r).
Proof.
  intros [Hnd Hidx]. unfold LRU.Erase. case_decide as Hin; simpl.
  - by apply erase_node_filter.
  - symmetry. apply filter_ne_notin. by rewrite <- Hidx.
Qed.

Lemma Erase_Insert_fresh r v :
  LRU.wf r → v ∉ LRU._list r → LRU.Erase v (LRU.Insert v r) = (true, r).
Proof.
  intros [Hnd Hidx] Hv. assert (v ∉ LRU._id2node r) as Hv' by (by rewrite Hidx).
  unfold LRU.Insert. rewrite decide_False by done.
  unfold LRU.Erase. simpl. rewrite decide_True by set_solver. simpl.
  rewrite decide_True by done. destruct r as [l idx]. simpl in *. do 2 f_equal.
  apply leibniz_equiv. set_solver.
Qed.

(** X1.  In a replacer that started empty, [Erase(v)] returns [true]
    exactly when [v] is present; afterwards [v] is absent and the other
    values keep their order; when it returns [false] nothing changes. *)
Theorem LRU_Erase_contract r v :
  LRU.reachable r →
  ((LRU.Erase v r).1 = true ↔ v ∈ LRU._list r)
  ∧ LRU._list (LRU.Erase v r).2 = filter (λ x, x ≠ v) (LRU._list r)
  ∧ (v ∉ LRU._list (LRU.Erase v r).2)
  ∧ ((LRU.Erase v r).1 = false → (LRU.Erase v r).2 = r).
Proof.
  intros Hreach. pose proof (reachable_wf r Hreach) as Hwf.
  split; [|split; [by apply Erase_list|split]].
  - destruct Hwf as [_ Hidx]. unfold LRU.Erase.
    case_decide as Hin; simpl; rewrite <- Hidx; naive_solver.
  - rewrite Erase_list by done. rewrite list_elem_of_filter. naive_solver.
  - unfold LRU.Erase. by case_decide.
Qed.

(** X2.  [Size] counts the values: [Insert] of a new value adds one and
    [Insert] of a present value leaves it, [Erase] of a present value and a
    successful [Victim] take one away. *)
Theorem LRU_Size_bookkeeping r v :
  LRU.reachable r →
  LRU.Size (LRU.Insert v r)
  = (if decide (v ∈ LRU._list r) then LRU.Size r else S (LRU.Size r))
  ∧ LRU.Size (LRU.Erase v r).2
    = (if decide (v ∈ LRU._list r) then pred (LRU.Size r) else LRU.Size r)
  ∧ (∀ x r', LRU.Victim r = Done (Some (x, r')) → LRU.Size r = S (LRU.Size r')).
Proof.
  intros Hreach. pose proof (reachable_wf r Hreach) as Hwf.
  pose proof Hwf as [Hnd _].
  rewrite !Size_length by (done || by apply wf_Insert || by apply wf_Erase).
  rewrite Insert_list, Erase_list by done. simpl.
  split; [|split].
  - case_decide as Hin; [by apply length_filter_ne|]. by rewrite filter_ne_notin.
  - case_decide as Hin.
    + by rewrite <- (length_filter_ne v (LRU._list r)).
    + by rewrite filter_ne_notin.
  - intros x r' Hv. destruct (wf_Victim x r r' Hwf Hv) as [Hwf' Hl].
    rewrite (Size_length r') by done. rewrite Hl, length_app. simpl. lia.
Qed.

(** X3.  Values that are inserted one after the other, all different and
    none of them present before, line up in front of the old ones, the last
    inserted first; on a replacer that was empty the first inserted value is
    the next victim. *)
Theorem LRU_insertion_order r (vs : list T) :
  LRU.reachable r → NoDup vs → (∀ v, v ∈ vs → v ∉ LRU._list r) →
  let r' := foldl (λ r v, LRU.Insert v r) r vs in
  LRU._list r' = reverse vs ++ LRU._list r
  ∧ (∀ v vs', vs = v :: vs' → LRU._list r = [] →
       ∃ r'', LRU.Victim r' = Done (Some (v, r'')) ∧ LRU._list r'' = reverse vs').
Proof.
  intros Hreach Hnd Hfresh.
  assert (∀ vs r, LRU.reachable r → NoDup vs → (∀ v, v ∈ vs → v ∉ LRU._list r) →
            LRU.reachable (foldl (λ r v, LRU.Insert v r) r vs)
            ∧ LRU._list (foldl (λ r v, LRU.Insert v r) r vs)
              = reverse vs ++ LRU._list r) as Hgen.
  { clear. intros vs. induction vs as [|v vs IH]; intros r Hreach Hnd Hfresh; simpl.
    - done.
    - apply NoDup_cons in Hnd as [Hv Hnd].
      assert (LRU._list (LRU.Insert v r) = v :: LRU._list r) as Hl.
      { rewrite Insert_list by (by apply reachable_wf).
        rewrite filter_ne_notin; [done|]. apply Hfresh. by left. }
      destruct (IH (LRU.Insert v r)) as [Hr' Hl']; [by constructor|done| |].
      + intros x Hx. rewrite Hl. apply not_elem_of_cons. split.
        * by intros ->.
        * apply Hfresh. by right.
      + split; [done|]. rewrite Hl', Hl, reverse_cons, <- app_assoc. done. }
  destruct (Hgen vs r Hreach Hnd Hfresh) as [Hr' Hl']. split; [done|].
  intros v vs' -> Hempty. rewrite Hempty, app_nil_r, reverse_cons in Hl'.
  eexists. split; [apply Victim_snoc; [by apply reachable_wf|done]|done].
Qed.

(** X19.  In a replacer that started empty, erasing a value right after
    inserting it, when it was not present before, gives back the replacer
    as it was; after [Insert] into the empty replacer [Victim] returns the
    value and leaves the replacer empty again. *)
Theorem LRU_Insert_then_remove r v :
  LRU.reachable r → v ∉ LRU._list r →
  LRU.Erase v (LRU.Insert v r) = (true, r)
  ∧ (LRU._list r = [] → LRU.Victim (LRU.Insert v r) = Done (Some (v, r))).
Proof.
  intros Hreach Hv. pose proof (reachable_wf r Hreach) as Hwf.
  split; [by apply Erase_Insert_fresh|]. intros Hempty.
  assert (LRU._list (LRU.Insert v r) = [] ++ [v]) as Hl.
  { rewrite Insert_list by done. by rewrite Hempty. }
  rewrite (Victim_snoc [] v _ (wf_Insert v r Hwf) Hl). do 3 f_equal.
  destruct Hwf as [_ Hidx]. destruct r as [l idx]. simpl in *. subst l.
  f_equal. apply leibniz_equiv. intros x.
  rewrite elem_of_difference, elem_of_union, elem_of_singleton, Hidx.
  split; [|intros Hx; by apply elem_of_nil in Hx]. intros [[->|Hx] Hne]; [done|].
  by apply elem_of_nil in Hx.
Qed.

End LRU_more.

Lemma lru_12_reachable : LRU.reachable lru_12.
Proof. apply LRU.reach_Insert, LRU.reach_Insert, LRU.reach_empty. Defined.

Lemma LRU_Erase_contract_witness :
  LRU.reachable lru_12
  ∧ (LRU.Erase 1%nat lru_12).1 = true
  ∧ LRU._list (LRU.Erase 1%nat lru_12).2 = [2%nat].
Proof.
  split; [exact lru_12_reachable|].
  destruct (LRU_Erase_contract lru_12 1%nat lru_12_reachable) as (Hret & Hl & _).
  split; [|exact Hl]. apply Hret. right. left.
Defined.

Lemma LRU_Size_bookkeeping_witness :
  LRU.Size (LRU.Insert 2%nat lru_12) = 2%nat
  ∧ LRU.Size (LRU.Insert 3%nat lru_12) = 3%nat
  ∧ LRU.Size (LRU.Erase 2%nat lru_12).2 = 1%nat.
Proof.
  split; [|split].
  - exact (proj1 (LRU_Size_bookkeeping lru_12 2%nat lru_12_reachable)).
  - exact (proj1 (LRU_Size_bookkeeping lru_12 3%nat lru_12_reachable)).
  - exact (proj1 (proj2 (LRU_Size_bookkeeping lru_12 2%nat lru_12_reachable))).
Defined.

Lemma LRU_Insert_then_remove_witness :
  LRU.Erase 9%nat (LRU.Insert 9%nat lru_12) = (true, lru_12)
  ∧ LRU.Victim (LRU.Insert 9%nat (LRU.empty : LRU.LRUReplacer nat))
    = Done (Some (9%nat, LRU.empty)).
Proof.
  split.
  - apply (LRU_Insert_then_remove lru_12 9%nat lru_12_reachable). set_solver.
  - apply (LRU_Insert_then_remove LRU.empty 9%nat LRU.reach_empty);
      [apply not_elem_of_nil|reflexivity].
Defined.

Lemma LRU_insertion_order_witness :
  LRU._list (foldl (λ r v, LRU.Insert v r) LRU.empty [5%nat; 6%nat; 7%nat])
  = [7%nat; 6%nat; 5%nat]
  ∧ ∃ r', LRU.Victim (foldl (λ r v, LRU.Insert v r) LRU.empty [5%nat; 6%nat; 7%nat])
          = Done (Some (5%nat, r')) ∧ LRU._list r' = [7%nat; 6%nat].
Proof.
  destruct (LRU_insertion_order (LRU.empty : LRU.LRUReplacer nat) [5%nat; 6%nat; 7%nat])
    as [Hl Hv].
  - apply LRU.reach_empty.
  - repeat constructor; set_solver.
  - intros v _. apply not_elem_of_nil.
  - split; [exact Hl|]. exact (Hv 5%nat [6%nat; 7%nat] eq_refl eq_refl).
Defined.

(** ** Further properties of the pool *)

(** *** What the steps of the operations touch *)

Lemma releaseDirty_fields s (page : nat) :
  let s' := releaseDirty page s in
  page_table_ s' = delete (page_id_ (deref s page)) (page_table_ s)
  ∧ replacer_ s' = replacer_ s
  ∧ free_list_ s' = free_list_ s
  ∧ dirty_pages_ s' = dirty_pages_ s
  ∧ length (pages_ s') = length (pages_ s)
  ∧ (∀ g : nat, g ≠ page → pages_ s' !! g = pages_ s !! g)
  ∧ (∀ g : nat, page_id_ (deref s' g) = page_id_ (deref s g))
  ∧ disk_manager_ s'
    = (if is_dirty_ (deref s page)
       then WritePage (page_id_ (deref s page)) (data_ (deref s page)) (disk_manager_ s)
       else disk_manager_ s).
Proof.
  unfold releaseDirty, IsDirty, GetPageId, GetData.
  destruct (is_dirty_ (deref s page)) eqn:Hd; simpl; [|done].
  pose proof (dirty_in_range _ _ Hd) as Hlt.
  autorewrite with pool.
  rewrite (deref_modify_page_id _ page page (SetDirty false)) by done.
  autorewrite with pool.
  repeat split; try done.
  - apply length_insert.
  - intros g Hg. by apply list_lookup_insert_ne.
  - intros g.
    change (page_id_ (deref (modify_page page (SetDirty false)
              (set_disk_manager
                 (WritePage (page_id_ (deref s page)) (data_ (deref s page))
                    (disk_manager_ s)) s)) g) = page_id_ (deref s g)).
    rewrite deref_modify_page_id by done. by autorewrite with pool.
Qed.

(** The frame that [acquire_frame] hands over: every other frame, the dirty
    set and the disk pages of identifiers that are not in the page table are
    as before. *)
Lemma acquire_frame_frame s (page : nat) s1 :
  pool_inv s → acquire_frame s = Done (Some (page, s1)) →
  (∀ g : nat, g ≠ page → pages_ s1 !! g = pages_ s !! g)
  ∧ length (pages_ s1) = length (pages_ s)
  ∧ dirty_pages_ s1 = dirty_pages_ s
  ∧ (∀ k, page_table_ s !! k = None →
       disk_pages (disk_manager_ s1) !! k = disk_pages (disk_manager_ s) !! k)
  ∧ (∀ k (g : nat), page_table_ s1 !! k = Some g → page_table_ s !! k = Some g)
  ∧ dealloc_log (disk_manager_ s1) = dealloc_log (disk_manager_ s).
Proof.
  intros Hinv Hacq. pose proof Hinv as [Hlru Htbl Hnd Hfree Hrep Hdirty].
  unfold acquire_frame in Hacq.
  destruct (free_list_ s) as [|f rest] eqn:Hfl.
  - destruct (Victim_cases _ Hlru) as [[_ Hv]|(l & v & Hl & Hv)];
      rewrite Hv in Hacq; simpl in Hacq; [done|].
    injection Hacq as <- <-.
    destruct (releaseDirty_fields
                (set_replacer (LRU.mkLRU l (LRU._id2node (replacer_ s) ∖ {[v]})) s) v)
      as (Ht & _ & _ & Hdp & Hlen & Hpg & _ & Hdisk).
    simpl in *. autorewrite with pool in *.
    assert (page_table_ s !! page_id_ (deref s v) = Some v) as Hbound.
    { apply Hrep. rewrite Hl. apply elem_of_app. right. by apply list_elem_of_singleton. }
    repeat split; try done.
    + intros k Hk. rewrite Hdisk. destruct (is_dirty_ (deref s v)); [|done].
      simpl. rewrite lookup_insert_ne; [done|]. intros Heq. congruence.
    + intros k g. rewrite Ht. intros Hk. by apply lookup_delete_Some in Hk as [_ Hk].
    + rewrite Hdisk. by destruct (is_dirty_ (deref s v)).
  - by injection Hacq as <- <-.
Qed.

(** On a well-formed replacer [acquire_frame] returns. *)
Lemma acquire_frame_returns s :
  LRU.wf (replacer_ s) → ∃ a, acquire_frame s = Done a.
Proof.
  intros Hwf. unfold acquire_frame. destruct (free_list_ s); [|by eexists].
  destruct (Victim_cases _ Hwf) as [[_ Hv]|(l & v & _ & Hv)];
    rewrite Hv; simpl; by eexists.
Qed.

(** *** Pin counts *)

Lemma deref_pin_nonneg s (f : nat) : pins_ok s → 0 ≤ pin_count_ (deref s f).
Proof.
  intros Hp. destruct (pages_ s !! f) as [p|] eqn:Hf.
  - rewrite (deref_lookup _ _ _ Hf). by eapply Hp.
  - by rewrite (deref_out_of_range _ _ Hf).
Qed.

Lemma pins_modify s (page : nat) m :
  pins_ok s → 0 ≤ pin_count_ (m (deref s page)) → pins_ok (modify_page page m s).
Proof.
  intros Hp Hm f p' Hf.
  apply modify_lookup_Some in Hf as (p & Hf & [[_ ->]|[-> ->]]).
  - by eapply Hp.
  - by rewrite <- (deref_lookup _ _ _ Hf).
Qed.

Lemma pins_releaseDirty s (page : nat) : pins_ok s → pins_ok (releaseDirty page s).
Proof.
  intros Hp. unfold releaseDirty. destruct (IsDirty (deref s page)); [|done].
  apply (pins_modify
           (set_disk_manager
              (WritePage (GetPageId (deref s page)) (GetData (deref s page))
                 (disk_manager_ s)) s) page (SetDirty false)); [done|].
  simpl. autorewrite with pool. by apply deref_pin_nonneg.
Qed.

Lemma pins_acquire_frame s (page : nat) s1 :
  pins_ok s → acquire_frame s = Done (Some (page, s1)) → pins_ok s1.
Proof.
  intros Hp Hacq. unfold acquire_frame in Hacq.
  destruct (free_list_ s) as [|f rest].
  - destruct (LRU.Victim (replacer_ s)) as [[[v r]|]|]; simpl in Hacq; try done.
    injection Hacq as <- <-. by apply (pins_releaseDirty (set_replacer r s)).
  - by injection Hacq as <- <-.
Qed.

Lemma pins_flush_entry s (e : Z * nat) : pins_ok s → pins_ok (flush_entry s e).
Proof.
  intros Hp. unfold flush_entry. destruct (IsDirty (deref s e.2)); [|done].
  apply (pins_modify
           (set_disk_manager
              (WritePage e.1 (GetData (deref s e.2)) (disk_manager_ s)) s)
           e.2 (SetDirty false)); [done|].
  simpl. autorewrite with pool. by apply deref_pin_nonneg.
Qed.

Lemma pins_foldl_flush (es : list (Z * nat)) s :
  pins_ok s → pins_ok (foldl flush_entry s es).
Proof.
  revert s. induction es as [|e es IH]; simpl; intros s Hp; [done|].
  by apply IH, pins_flush_entry.
Qed.

Lemma pins_UnpinPage s (page_id : page_id_t) is_dirty :
  pins_ok s → pins_ok (UnpinPage page_id is_dirty s).2.
Proof.
  intros Hp. unfold UnpinPage, GetPinCount.
  destruct (page_table_ s !! page_id) as [page|]; [|done].
  case_decide as Hpin; [|done].
  assert (pins_ok (modify_page page DecreasePinCount s)) as Hp1.
  { apply pins_modify; [done|]. simpl. lia. }
  case_decide as Hz; [|done]. destruct is_dirty; [|done].
  apply (pins_modify (modify_page page DecreasePinCount s) page (SetDirty true));
    [done|].
  simpl. by apply deref_pin_nonneg.
Qed.

(** *** Where the frames are *)

Lemma same_binding_refl s : same_binding s s.
Proof. by repeat split. Qed.

Lemma same_binding_trans s1 s2 s3 :
  same_binding s1 s2 → same_binding s2 s3 → same_binding s1 s3.
Proof.
  intros (Ht1 & Hf1 & Hl1 & Hi1) (Ht2 & Hf2 & Hl2 & Hi2).
  split; [congruence|split; [congruence|split; [congruence|]]].
  intros g. by rewrite Hi2, Hi1.
Qed.

Lemma same_binding_modify s (page : nat) m :
  (∀ p, page_id_ (m p) = page_id_ p) → same_binding s (modify_page page m s).
Proof.
  intros Hid. repeat split; try done.
  - apply length_modify.
  - intros g. by apply deref_modify_page_id.
Qed.

Lemma same_binding_covered s s' : same_binding s s' → covered s → covered s'.
Proof.
  intros (Ht & Hf & Hl & Hi) Hc f Hlt. rewrite Hl in Hlt.
  unfold frame_placed. rewrite Ht, Hf, Hi. by apply Hc.
Qed.

Lemma same_binding_flush_entry s (e : Z * nat) : same_binding s (flush_entry s e).
Proof.
  unfold flush_entry. destruct (IsDirty (deref s e.2)); [|apply same_binding_refl].
  apply (same_binding_modify
           (set_disk_manager
              (WritePage e.1 (GetData (deref s e.2)) (disk_manager_ s)) s)
           e.2 (SetDirty false)).
  done.
Qed.

Lemma same_binding_foldl_flush (es : list (Z * nat)) s :
  same_binding s (foldl flush_entry s es).
Proof.
  revert s. induction es as [|e es IH]; simpl; intros s.
  - apply same_binding_refl.
  - eapply same_binding_trans; [apply same_binding_flush_entry|apply IH].
Qed.

Lemma same_binding_UnpinPage s (page_id : page_id_t) is_dirty :
  same_binding s (UnpinPage page_id is_dirty s).2.
Proof.
  unfold UnpinPage.
  destruct (page_table_ s !! page_id) as [page|]; [|apply same_binding_refl].
  case_decide; [|apply same_binding_refl].
  pose proof (same_binding_modify s page DecreasePinCount (λ _, eq_refl)) as H1.
  case_decide; [|done]. destruct is_dirty; [|done].
  eapply same_binding_trans; [exact H1|].
  apply (same_binding_modify (modify_page page DecreasePinCount s) page
           (SetDirty true)).
  done.
Qed.

Lemma covered_acquire_frame s (page : nat) s1 :
  pool_inv s → covered s → acquire_frame s = Done (Some (page, s1)) →
  covered_except s1 page.
Proof.
  intros Hinv Hc Hacq. pose proof Hinv as [Hlru Htbl Hnd Hfree Hrep Hdirty].
  unfold acquire_frame in Hacq.
  destruct (free_list_ s) as [|f0 rest] eqn:Hfl.
  - destruct (Victim_cases _ Hlru) as [[_ Hv]|(l & v & Hl & Hv)];
      rewrite Hv in Hacq; simpl in Hacq; [done|].
    injection Hacq as <- <-.
    set (s0 := set_replacer (LRU.mkLRU l (LRU._id2node (replacer_ s) ∖ {[v]})) s).
    pose proof (releaseDirty_fields s0 v) as Hrf. cbv zeta in Hrf.
    destruct Hrf as (Ht & _ & Hf & _ & Hlen & _ & Hid & _).
    assert (page_table_ s !! page_id_ (deref s v) = Some v) as Hbound.
    { apply Hrep. rewrite Hl. apply elem_of_app. right. by apply list_elem_of_singleton. }
    intros f Hlt Hne. rewrite Hlen in Hlt. unfold frame_placed.
    rewrite Ht, Hf, Hid. subst s0. simpl in *. autorewrite with pool.
    destruct (Hc f Hlt) as [Hin|Hb].
    + rewrite Hfl in Hin. by apply elem_of_nil in Hin.
    + right. rewrite lookup_delete_ne; [done|]. intros Heq. congruence.
  - injection Hacq as <- <-. intros f Hlt Hne. simpl in Hlt.
    destruct (Hc f Hlt) as [Hin|Hb].
    + left. simpl. rewrite Hfl in Hin. apply elem_of_cons in Hin as [->|Hin]; done.
    + by right.
Qed.

Lemma ReadPage_ext PAGE_SIZE (k : page_id_t) dm dm' :
  disk_pages dm' !! k = disk_pages dm !! k →
  ReadPage PAGE_SIZE k dm' = ReadPage PAGE_SIZE k dm.
Proof. intros Heq. unfold ReadPage. by rewrite Heq. Qed.

Lemma ReadPage_unwritten PAGE_SIZE (k : page_id_t) dm :
  disk_pages dm !! k = None → ReadPage PAGE_SIZE k dm = zero_buffer PAGE_SIZE.
Proof. intros Hk. unfold ReadPage. by rewrite Hk. Qed.

Lemma ReadPage_written PAGE_SIZE (k : page_id_t) dm d :
  disk_pages dm !! k = Some d → ReadPage PAGE_SIZE k dm = d.
Proof. intros Hk. unfold ReadPage. by rewrite Hk. Qed.

(** A successful [UnpinPage]: the count of the frame drops by one, the page
    table and the disk stay. *)
Lemma UnpinPage_pinned s (page_id : page_id_t) (page : nat) is_dirty :
  page_table_ s !! page_id = Some page → pin_count_ (deref s page) > 0 →
  let r := UnpinPage page_id is_dirty s in
  r.1 = true
  ∧ page_table_ r.2 = page_table_ s
  ∧ free_list_ r.2 = free_list_ s
  ∧ disk_manager_ r.2 = disk_manager_ s
  ∧ pin_count_ (deref r.2 page) = pin_count_ (deref s page) - 1.
Proof.
  intros Hfind Hpin. pose proof (pinned_in_range _ _ Hpin) as Hlt.
  cbv zeta. unfold UnpinPage, GetPinCount. rewrite Hfind.
  rewrite decide_True by done.
  rewrite (deref_modify_eq _ _ DecreasePinCount Hlt). simpl.
  case_decide as Hz; simpl; [destruct is_dirty; simpl|]; autorewrite with pool;
    rewrite ?deref_modify_eq by (by rewrite ?length_modify);
    rewrite ?deref_modify_eq by done; done.
Qed.

Section BufferPool_more.
Variable PAGE_SIZE : nat.
Variable INVALID_PAGE_ID : page_id_t.

Local Abbreviation FetchPage := (FetchPage PAGE_SIZE INVALID_PAGE_ID).
Local Abbreviation NewPage := (NewPage PAGE_SIZE INVALID_PAGE_ID).
Local Abbreviation allocatePage := (allocatePage PAGE_SIZE INVALID_PAGE_ID).
Local Abbreviation DeletePage := (DeletePage PAGE_SIZE INVALID_PAGE_ID).
Local Abbreviation FlushPage := (FlushPage INVALID_PAGE_ID).
Local Abbreviation Reset := (Reset PAGE_SIZE INVALID_PAGE_ID).
Local Abbreviation ReadPage := (ReadPage PAGE_SIZE).
Local Abbreviation zero_buffer := (zero_buffer PAGE_SIZE).
Local Abbreviation reachable := (reachable PAGE_SIZE INVALID_PAGE_ID).
Local Abbreviation bind_frame := (bind_frame PAGE_SIZE INVALID_PAGE_ID).
Local Abbreviation BufferPoolManager_new :=
  (BufferPoolManager_new PAGE_SIZE INVALID_PAGE_ID).

Lemma bind_frame_fields s (page : nat) (k : page_id_t) :
  (page < length (pages_ s))%nat →
  let s' := bind_frame page k s in
  pages_ s' !! page = Some (mkPage (ReadPage k (disk_manager_ s)) k 1 false)
  ∧ (∀ g : nat, g ≠ page → pages_ s' !! g = pages_ s !! g)
  ∧ length (pages_ s') = length (pages_ s)
  ∧ page_table_ s' = <[k := page]> (page_table_ s)
  ∧ replacer_ s' = replacer_ s
  ∧ free_list_ s' = free_list_ s
  ∧ dirty_pages_ s' = dirty_pages_ s
  ∧ disk_manager_ s' = disk_manager_ s.
Proof.
  intros Hlt. unfold_bind_frame. simpl. repeat split; try done.
  - by rewrite list_lookup_insert_eq.
  - intros g Hg. by apply list_lookup_insert_ne.
  - apply length_insert.
Qed.

Lemma pins_bind_frame s (page : nat) (k : page_id_t) :
  pins_ok s → pins_ok (bind_frame page k s).
Proof.
  intros Hp. unfold_bind_frame.
  apply (pins_modify s page
           (λ p, SetData (ReadPage k (disk_manager_ s))
                   (IncreasePinCount (SetPageId k (Reset p))))); [done|].
  simpl. lia.
Qed.

Lemma covered_bind_frame s (page : nat) (k : page_id_t) :
  (page < length (pages_ s))%nat → page_table_ s !! k = None →
  covered_except s page → covered (bind_frame page k s).
Proof.
  intros Hlt Hk Hc.
  destruct (bind_frame_fields s page k Hlt) as (Hp & Hpg & Hlen & Ht & _ & Hf & _).
  intros f Hf'. rewrite Hlen in Hf'. unfold frame_placed. rewrite Ht, Hf.
  destruct (decide (f = page)) as [->|Hne].
  - right. rewrite (deref_lookup _ _ _ Hp). simpl. apply lookup_insert_eq.
  - assert (deref (bind_frame page k s) f = deref s f) as ->.
    { unfold deref. rewrite !list_lookup_total_alt. by rewrite Hpg. }
    destruct (Hc f Hf' Hne) as [Hin|Hb]; [by left|right].
    rewrite lookup_insert_ne; [done|]. intros Heq. congruence.
Qed.

Lemma covered_DeletePage s (page_id : page_id_t) :
  pool_inv s → covered s → covered (DeletePage page_id s).2.
Proof.
  intros Hinv Hc. unfold_DeletePage.
  destruct (page_table_ s !! page_id) as [page|] eqn:Hfind; [|done].
  case_decide as Hpin; [|done]. simpl.
  intros f Hlt. simpl in Hlt. rewrite length_insert in Hlt.
  unfold frame_placed. simpl.
  destruct (decide (f = page)) as [->|Hne].
  - left. apply elem_of_app. right. by apply list_elem_of_singleton.
  - unfold deref. simpl. rewrite list_lookup_total_insert_ne by done.
    destruct (Hc f Hlt) as [Hin|Hb].
    + left. apply elem_of_app. by left.
    + right. unfold deref in Hb. rewrite lookup_delete_ne; [done|].
      intros Heq. rewrite <- Heq in Hb. congruence.
Qed.

(** The two invariants hold in every reachable state. *)
Lemma reachable_pins_covered s : reachable s → pins_ok s ∧ covered s.
Proof.
  induction 1 as [n dm|s k r s' Hs [IHp IHc] Hf|s r s' Hs [IHp IHc] Hfresh Hn
                 |s k d Hs [IHp IHc]|s k r s' Hs [IHp IHc] Hf|s Hs [IHp IHc]
                 |s k Hs [IHp IHc]|s page d Hs [IHp IHc] Hpin Hlen];
    try pose proof (reachable_inv _ _ _ Hs) as Hinv.
  - split.
    + intros f p Hp. apply lookup_replicate in Hp as [-> _]. done.
    + intros f Hlt. left. simpl in *. rewrite length_replicate in Hlt.
      apply elem_of_seq. lia.
  - destruct (decide (k = INVALID_PAGE_ID)) as [Hi|Hvalid].
    { unfold_FetchPage. rewrite decide_True in Hf by done. by injection Hf as _ <-. }
    destruct (page_table_ s !! k) as [page|] eqn:Hfind.
    + unfold_FetchPage. rewrite decide_False, Hfind in Hf by done.
      injection Hf as _ <-. split.
      * apply pins_modify; [done|]. simpl.
        pose proof (deref_pin_nonneg s page IHp). lia.
      * eapply same_binding_covered; [|done]. by apply same_binding_modify.
    + rewrite (FetchPage_miss PAGE_SIZE INVALID_PAGE_ID) in Hf by done.
      destruct (acquire_frame s) as [[[page s1]|]|] eqn:Hacq; simpl in Hf; [| |done].
      * injection Hf as _ <-.
        destruct (acquire_frame_inv _ _ _ Hinv Hacq) as (_ & (Hlt & _) & _ & Hsub).
        split.
        -- apply pins_bind_frame. by eapply pins_acquire_frame.
        -- apply covered_bind_frame; [done|by apply Hsub|].
           by eapply covered_acquire_frame.
      * by injection Hf as _ <-.
  - change (allocatePage s = Done (r, s')) in Hn.
    rewrite (allocatePage_steps PAGE_SIZE INVALID_PAGE_ID) in Hn.
    destruct (acquire_frame s) as [[[page s1]|]|] eqn:Hacq; simpl in Hn; [| |done].
    + injection Hn as _ <-.
      destruct (acquire_frame_inv _ _ _ Hinv Hacq) as (_ & (Hlt & _) & Hn1 & Hsub).
      split.
      * apply pins_bind_frame. change (pins_ok s1).
        by apply (pins_acquire_frame s page).
      * apply covered_bind_frame; simpl; [done|rewrite Hn1; by apply Hsub|].
        change (covered_except s1 page). by apply (covered_acquire_frame s).
    + by injection Hn as _ <-.
  - split; [by apply pins_UnpinPage|].
    eapply same_binding_covered; [apply same_binding_UnpinPage|done].
  - unfold_FlushPage. case_decide; [by injection Hf as _ <-|].
    destruct (page_table_ s !! k) as [page|] eqn:Hfind; [|done].
    repeat case_decide; try done.
    destruct (IsDirty (deref s page)); [|by injection Hf as _ <-].
    simpl in Hf. destruct (dirty_pages_ s !! k); [|done].
    injection Hf as _ <-. split.
    + apply (pins_modify
               (set_disk_manager
                  (WritePage k (GetData (deref s page)) (disk_manager_ s)) s)
               page (SetDirty false)); [done|].
      simpl. autorewrite with pool. by apply deref_pin_nonneg.
    + apply (same_binding_covered s); [|done].
      apply (same_binding_modify
               (set_disk_manager
                  (WritePage k (GetData (deref s page)) (disk_manager_ s)) s)
               page (SetDirty false)).
      done.
  - split.
    + by apply (pins_foldl_flush (map_to_list (dirty_pages_ s)) s).
    + apply (same_binding_covered s); [|done].
      apply (same_binding_foldl_flush (map_to_list (dirty_pages_ s)) s).
  - split; [|by apply covered_DeletePage].
    unfold_DeletePage. destruct (page_table_ s !! k) as [page|]; [|done].
    case_decide; [|done]. simpl.
    apply (pins_modify s page Reset); [done|]. simpl. lia.
  - split.
    + apply pins_modify; [done|]. simpl. by apply deref_pin_nonneg.
    + eapply same_binding_covered; [|done]. by apply same_binding_modify.
Qed.

(** *** Properties of the reachable states *)

(** X4.  In a reachable state [FetchPage] and [NewPage] return: the
    assertion of [Victim] never fails. *)
Theorem pool_operations_never_fault s :
  reachable s →
  (∀ page_id, ∃ r s', FetchPage page_id s = Done (r, s'))
  ∧ (∃ r s', NewPage s = Done (r, s')).
Proof.
  intros Hreach. pose proof (reachable_inv _ _ _ Hreach) as Hinv.
  destruct (acquire_frame_returns s (inv_lru _ Hinv)) as [a Ha].
  split.
  - intros k. destruct (decide (k = INVALID_PAGE_ID)) as [Hi|Hvalid].
    { unfold_FetchPage. rewrite decide_True by done. by eexists _, _. }
    destruct (page_table_ s !! k) as [page|] eqn:Hfind.
    + unfold_FetchPage. rewrite decide_False, Hfind by done. by eexists _, _.
    + rewrite (FetchPage_miss PAGE_SIZE INVALID_PAGE_ID) by done.
      rewrite Ha. simpl. destruct a as [[page s1]|]; by eexists _, _.
  - change (∃ r s', allocatePage s = Done (r, s')).
    rewrite (allocatePage_steps PAGE_SIZE INVALID_PAGE_ID), Ha. simpl.
    destruct a as [[page s1]|]; by eexists _, _.
Qed.

(** X5.  In a reachable state [FlushPage] of a valid identifier that is in
    the page table returns without a failed assertion.  If the frame is
    dirty it returns [true], the buffer is written to disk under the
    identifier, the flag is cleared and the identifier leaves the dirty set,
    nothing else changes; if the frame is clean it returns [false] and the
    state is unchanged. *)
Theorem FlushPage_present_contract s (page_id : page_id_t) (page : nat) :
  reachable s → page_id ≠ INVALID_PAGE_ID → page_table_ s !! page_id = Some page →
  let p := deref s page in
  if is_dirty_ p then
    ∃ s', FlushPage page_id s = Done (true, s')
      ∧ pages_ s' !! page = Some (SetDirty false p)
      ∧ (∀ g : nat, g ≠ page → pages_ s' !! g = pages_ s !! g)
      ∧ dirty_pages_ s' = delete page_id (dirty_pages_ s)
      ∧ write_log (disk_manager_ s') = (page_id, data_ p) :: write_log (disk_manager_ s)
      ∧ disk_pages (disk_manager_ s') !! page_id = Some (data_ p)
      ∧ page_table_ s' = page_table_ s
      ∧ replacer_ s' = replacer_ s
      ∧ free_list_ s' = free_list_ s
  else FlushPage page_id s = Done (false, s).
Proof.
  intros Hreach Hvalid Hfind. pose proof (reachable_inv _ _ _ Hreach) as Hinv.
  destruct (inv_table_deref _ _ _ Hinv Hfind) as [Hlt Hid].
  cbv zeta. unfold_FlushPage. unfold GetPageId, IsDirty, GetData.
  rewrite decide_False, Hfind by done.
  rewrite decide_True by done. rewrite decide_True by congruence.
  destruct (is_dirty_ (deref s page)) eqn:Hd; [|done].
  destruct (inv_dirty _ Hinv page (deref s page) (lookup_deref _ _ Hlt) Hd)
    as [_ Hdp].
  rewrite Hid in Hdp. simpl. rewrite Hdp. eexists. split; [done|]. simpl.
  autorewrite with pool. repeat split; try done.
  - by rewrite list_lookup_insert_eq.
  - intros g Hg. by apply list_lookup_insert_ne.
  - apply lookup_insert_eq.
Qed.

(** X6.  In a reachable state two keys of the page table never share a
    frame, and a frame that a key is bound to is a frame of the pool, carries
    the key as its identifier and is not on the free list. *)
Theorem page_table_binds_one_frame s (k1 k2 : page_id_t) (page : nat) :
  reachable s →
  page_table_ s !! k1 = Some page → page_table_ s !! k2 = Some page →
  k1 = k2
  ∧ (page < length (pages_ s))%nat
  ∧ page_id_ (deref s page) = k1
  ∧ (page ∉ free_list_ s).
Proof.
  intros Hreach H1 H2. pose proof (reachable_inv _ _ _ Hreach) as Hinv.
  destruct (inv_table_deref _ _ _ Hinv H1) as [Hlt Hid].
  split; [by apply (inv_table_inj s _ _ page)|]. split; [done|]. split; [done|].
  intros Hin. by apply (proj2 (inv_free _ Hinv _ Hin) k1).
Qed.

(** X7.  In a reachable state every frame of the pool is either on the free
    list, and then in no entry of the page table and not in the replacer, or
    bound in the page table under the identifier it carries; the free list
    has no duplicates, and every frame in the replacer is bound in the page
    table. *)
Theorem frames_are_free_or_bound s :
  reachable s →
  NoDup (free_list_ s)
  ∧ (∀ f : nat, (f < length (pages_ s))%nat →
       (f ∈ free_list_ s ∧ (∀ k, page_table_ s !! k ≠ Some f)
        ∧ (f ∉ LRU._list (replacer_ s)))
       ∨ ((f ∉ free_list_ s) ∧ page_table_ s !! page_id_ (deref s f) = Some f))
  ∧ (∀ f : nat, f ∈ LRU._list (replacer_ s) →
       (f < length (pages_ s))%nat
       ∧ page_table_ s !! page_id_ (deref s f) = Some f).
Proof.
  intros Hreach. pose proof (reachable_inv _ _ _ Hreach) as Hinv.
  destruct (reachable_pins_covered _ Hreach) as [_ Hc].
  pose proof Hinv as [Hlru Htbl Hnd Hfree Hrep Hdirty].
  split; [done|]. split.
  - intros f Hlt. destruct (decide (f ∈ free_list_ s)) as [Hin|Hnin].
    + left. split; [done|]. split; [by apply Hfree|].
      intros Hr. by apply (proj2 (Hfree f Hin) _ (Hrep f Hr)).
    + right. split; [done|]. by destruct (Hc f Hlt).
  - intros f Hr. specialize (Hrep f Hr). split; [|done].
    by destruct (inv_table_deref _ _ _ Hinv Hrep).
Qed.

(** X8.  In a reachable state no frame has a negative pin count. *)
Theorem pin_counts_never_negative s (f : nat) p :
  reachable s → pages_ s !! f = Some p → 0 ≤ pin_count_ p.
Proof.
  intros Hreach Hp. destruct (reachable_pins_covered _ Hreach) as [Hpins _].
  by eapply Hpins.
Qed.

(** X9.  In a reachable state a frame whose dirty flag is set is bound in
    the page table under its identifier, is recorded in the dirty set under
    that identifier and is not on the free list. *)
Theorem dirty_frames_are_recorded s (f : nat) p :
  reachable s → pages_ s !! f = Some p → is_dirty_ p = true →
  page_table_ s !! page_id_ p = Some f
  ∧ dirty_pages_ s !! page_id_ p = Some f
  ∧ (f ∉ free_list_ s).
Proof.
  intros Hreach Hp Hd. pose proof (reachable_inv _ _ _ Hreach) as Hinv.
  destruct (inv_dirty _ Hinv _ _ Hp Hd) as [Ht Hdp].
  split; [done|]. split; [done|].
  intros Hin. by apply (proj2 (inv_free _ Hinv _ Hin) (page_id_ p)).
Qed.

(** *** Misses, evictions and new pages *)

(** A miss that obtains a frame is [acquire_frame] followed by
    [bind_frame] on a frame of the pool. *)
Lemma FetchPage_miss_steps s (page_id : page_id_t) (page : nat) s' :
  pool_inv s → page_table_ s !! page_id = None →
  FetchPage page_id s = Done (Some page, s') →
  ∃ s1, acquire_frame s = Done (Some (page, s1))
        ∧ s' = bind_frame page page_id s1
        ∧ (page < length (pages_ s1))%nat.
Proof.
  intros Hinv Hmiss Hf.
  destruct (decide (page_id = INVALID_PAGE_ID)) as [Hi|Hvalid].
  { unfold_FetchPage. by rewrite decide_True in Hf by done. }
  rewrite (FetchPage_miss PAGE_SIZE INVALID_PAGE_ID) in Hf by done.
  destruct (acquire_frame s) as [[[page' s1]|]|] eqn:Hacq; simpl in Hf; try done.
  injection Hf as <- <-. exists s1.
  by destruct (acquire_frame_inv _ _ _ Hinv Hacq) as (_ & (Hlt & _) & _ & _).
Qed.

(** With an empty free list [acquire_frame] takes the back of the replacer
    and runs [releaseDirty] on it. *)
Lemma acquire_frame_victim s (page : nat) l :
  pool_inv s → free_list_ s = [] → LRU._list (replacer_ s) = l ++ [page] →
  acquire_frame s
  = Done (Some (page,
                releaseDirty page
                  (set_replacer
                     (LRU.mkLRU l (LRU._id2node (replacer_ s) ∖ {[page]})) s)))
  ∧ page_table_ s !! page_id_ (deref s page) = Some page
  ∧ (page < length (pages_ s))%nat.
Proof.
  intros Hinv Hfl Hl.
  assert (page_table_ s !! page_id_ (deref s page) = Some page) as Hbound.
  { apply (inv_replacer _ Hinv). rewrite Hl. apply elem_of_app. right.
    by apply list_elem_of_singleton. }
  split; [|split; [done|by destruct (inv_table_deref _ _ _ Hinv Hbound)]].
  unfold acquire_frame. rewrite Hfl.
  by rewrite (Victim_snoc l page _ (inv_lru _ Hinv) Hl).
Qed.

(** The frame that a miss returns holds what the disk held for the
    identifier. *)
Lemma FetchPage_miss_frame s (page_id : page_id_t) (page : nat) s' :
  pool_inv s → page_table_ s !! page_id = None →
  FetchPage page_id s = Done (Some page, s') →
  pages_ s' !! page
  = Some (mkPage (ReadPage page_id (disk_manager_ s)) page_id 1 false).
Proof.
  intros Hinv Hmiss Hf.
  destruct (FetchPage_miss_steps s page_id page s' Hinv Hmiss Hf)
    as (s1 & Hacq & -> & Hlt).
  destruct (acquire_frame_frame _ _ _ Hinv Hacq) as (_ & _ & _ & Hdisk & _).
  destruct (bind_frame_fields s1 page page_id Hlt) as (Hp & _).
  rewrite Hp. by rewrite (ReadPage_ext _ _ (disk_manager_ s)) by (by apply Hdisk).
Qed.

(** X10.  In a reachable state a [FetchPage] that misses the page table and
    obtains a frame binds the identifier to that frame and leaves the frame
    with pin count 1, a clear dirty flag and the bytes that the disk held
    for the identifier before the call; the other frames and the dirty set
    are as before. *)
Theorem FetchPage_miss_reads_through s (page_id : page_id_t) (page : nat) s' :
  reachable s → page_table_ s !! page_id = None →
  FetchPage page_id s = Done (Some page, s') →
  pages_ s' !! page
  = Some (mkPage (ReadPage page_id (disk_manager_ s)) page_id 1 false)
  ∧ page_table_ s' !! page_id = Some page
  ∧ (∀ g : nat, g ≠ page → pages_ s' !! g = pages_ s !! g)
  ∧ dirty_pages_ s' = dirty_pages_ s.
Proof.
  intros Hreach Hmiss Hf. pose proof (reachable_inv _ _ _ Hreach) as Hinv.
  split; [by apply FetchPage_miss_frame|].
  destruct (FetchPage_miss_steps s page_id page s' Hinv Hmiss Hf)
    as (s1 & Hacq & -> & Hlt).
  destruct (acquire_frame_frame _ _ _ Hinv Hacq) as (Hpg & _ & Hdp & _).
  destruct (bind_frame_fields s1 page page_id Hlt)
    as (_ & Hpg' & _ & Ht & _ & _ & Hdp' & _).
  split; [|split].
  - rewrite Ht. apply lookup_insert_eq.
  - intros g Hg. by rewrite Hpg', Hpg.
  - by rewrite Hdp', Hdp.
Qed.

(** X11.  In a reachable state with an empty free list, a [FetchPage] that
    misses takes the frame at the back of the replacer.  The identifier the
    frame carried leaves the page table; if the frame was dirty its buffer
    is written to disk under that identifier, and if it was clean nothing is
    written. *)
Theorem victim_is_written_back_if_dirty s (page_id : page_id_t) (page : nat) l :
  reachable s → free_list_ s = [] → LRU._list (replacer_ s) = l ++ [page] →
  page_id ≠ INVALID_PAGE_ID → page_table_ s !! page_id = None →
  let p := deref s page in
  ∃ s', FetchPage page_id s = Done (Some page, s')
    ∧ LRU._list (replacer_ s') = l
    ∧ page_table_ s' !! page_id_ p = None
    ∧ write_log (disk_manager_ s')
      = (if is_dirty_ p then [(page_id_ p, data_ p)] else [])
        ++ write_log (disk_manager_ s)
    ∧ (is_dirty_ p = true →
       disk_pages (disk_manager_ s') !! page_id_ p = Some (data_ p))
    ∧ (is_dirty_ p = false → disk_manager_ s' = disk_manager_ s).
Proof.
  intros Hreach Hfl Hl Hvalid Hmiss. pose proof (reachable_inv _ _ _ Hreach) as Hinv.
  destruct (acquire_frame_victim s page l Hinv Hfl Hl) as (Hacq & Hbound & Hlt).
  set (s0 := set_replacer (LRU.mkLRU l (LRU._id2node (replacer_ s) ∖ {[page]})) s)
    in *.
  pose proof (releaseDirty_fields s0 page) as Hrf. cbv zeta in Hrf.
  destruct Hrf as (Ht & Hr & _ & _ & Hlen & _ & _ & Hdisk).
  assert (page < length (pages_ (releaseDirty page s0)))%nat as Hlt'
    by (by rewrite Hlen).
  destruct (bind_frame_fields (releaseDirty page s0) page page_id Hlt')
    as (_ & _ & _ & Ht' & Hr' & _ & _ & Hdisk').
  cbv zeta. eexists. split.
  { rewrite (FetchPage_miss PAGE_SIZE INVALID_PAGE_ID) by done. by rewrite Hacq. }
  change (deref s0 page) with (deref s page) in *.
  change (disk_manager_ s0) with (disk_manager_ s) in *.
  change (page_table_ s0) with (page_table_ s) in *.
  split; [by rewrite Hr', Hr|]. split.
  - rewrite Ht', Ht. rewrite lookup_insert_ne by congruence. apply lookup_delete_eq.
  - rewrite Hdisk', Hdisk. destruct (is_dirty_ (deref s page)); simpl.
    + split; [done|]. split; [|done]. intros _. apply lookup_insert_eq.
    + done.
Qed.

(** X12.  In a reachable state a [NewPage] that obtains a frame returns the
    identifier that the disk manager hands out next, binds it to the frame
    and leaves the frame with pin count 1, a clear dirty flag and the bytes
    the disk holds for the identifier, zeros if the page was never written;
    the other frames are as before. *)
Theorem NewPage_binds_next_identifier s (page : nat) (id : page_id_t) s' :
  reachable s → page_table_ s !! next_page_id_ (disk_manager_ s) = None →
  NewPage s = Done (Some (page, id), s') →
  id = next_page_id_ (disk_manager_ s)
  ∧ next_page_id_ (disk_manager_ s') = id + 1
  ∧ page_table_ s' !! id = Some page
  ∧ pages_ s' !! page = Some (mkPage (ReadPage id (disk_manager_ s)) id 1 false)
  ∧ (disk_pages (disk_manager_ s) !! id = None →
     pages_ s' !! page = Some (mkPage zero_buffer id 1 false))
  ∧ (∀ g : nat, g ≠ page → pages_ s' !! g = pages_ s !! g).
Proof.
  intros Hreach Hfresh Hn. pose proof (reachable_inv _ _ _ Hreach) as Hinv.
  change (allocatePage s = Done (Some (page, id), s')) in Hn.
  rewrite (allocatePage_steps PAGE_SIZE INVALID_PAGE_ID) in Hn.
  destruct (acquire_frame s) as [[[page' s1]|]|] eqn:Hacq; simpl in Hn; try done.
  injection Hn as <- <- <-.
  destruct (acquire_frame_inv _ _ _ Hinv Hacq) as (_ & (Hlt & _) & Hn1 & _).
  destruct (acquire_frame_frame _ _ _ Hinv Hacq) as (Hpg & _ & _ & Hdisk & _).
  pose proof (bind_frame_fields
                (set_disk_manager (AllocatePage (disk_manager_ s1)).2 s1)
                page' (next_page_id_ (disk_manager_ s1)) Hlt) as Hbf.
  cbv zeta in Hbf. destruct Hbf as (Hp & Hpg' & _ & Ht & _ & _ & _ & Hdisk').
  assert (ReadPage (next_page_id_ (disk_manager_ s1))
            (disk_manager_ (set_disk_manager (AllocatePage (disk_manager_ s1)).2 s1))
          = ReadPage (next_page_id_ (disk_manager_ s1)) (disk_manager_ s)) as Hread.
  { apply ReadPage_ext. simpl. apply Hdisk. by rewrite Hn1. }
  split; [exact Hn1|]. split.
  { etrans; [exact (f_equal next_page_id_ Hdisk')|]. done. }
  split.
  { etrans; [exact (f_equal (λ t, t !! next_page_id_ (disk_manager_ s1)) Ht)|].
    apply lookup_insert_eq. }
  assert (pages_ (bind_frame page' (next_page_id_ (disk_manager_ s1))
                    (set_disk_manager (AllocatePage (disk_manager_ s1)).2 s1))
          !! page'
          = Some (mkPage (ReadPage (next_page_id_ (disk_manager_ s1)) (disk_manager_ s))
                    (next_page_id_ (disk_manager_ s1)) 1 false)) as Hp2.
  { etrans; [exact Hp|]. by rewrite Hread. }
  split; [exact Hp2|]. split.
  - intros Hnone. etrans; [exact Hp2|]. by rewrite (ReadPage_unwritten _ _ _ Hnone).
  - intros g Hg. etrans; [exact (Hpg' g Hg)|]. by apply Hpg.
Qed.

(** X13.  While the free list is not empty, a miss of [FetchPage] and
    [NewPage] take the frame at its front: the replacer is not asked for a
    victim, nothing is written to disk and the dirty set is untouched. *)
Theorem free_frame_is_taken_first s (page : nat) rest (page_id : page_id_t) :
  free_list_ s = page :: rest →
  page_id ≠ INVALID_PAGE_ID → page_table_ s !! page_id = None →
  (∃ s', FetchPage page_id s = Done (Some page, s')
     ∧ free_list_ s' = rest
     ∧ replacer_ s' = replacer_ s
     ∧ dirty_pages_ s' = dirty_pages_ s
     ∧ disk_manager_ s' = disk_manager_ s
     ∧ page_table_ s' = <[page_id := page]> (page_table_ s))
  ∧ (∃ s', NewPage s = Done (Some (page, next_page_id_ (disk_manager_ s)), s')
       ∧ free_list_ s' = rest
       ∧ replacer_ s' = replacer_ s
       ∧ dirty_pages_ s' = dirty_pages_ s
       ∧ write_log (disk_manager_ s') = write_log (disk_manager_ s)
       ∧ disk_pages (disk_manager_ s') = disk_pages (disk_manager_ s)
       ∧ page_table_ s'
         = <[next_page_id_ (disk_manager_ s) := page]> (page_table_ s)).
Proof.
  intros Hfl Hvalid Hmiss. split.
  - eexists. split.
    + unfold_FetchPage. rewrite decide_False, Hmiss, Hfl by done. simpl. done.
    + by repeat split.
  - eexists. split.
    + unfold_allocatePage. rewrite Hfl. simpl. done.
    + by repeat split.
Qed.

(** *** Flushing everything *)

Lemma flush_entry_frame s (e : Z * nat) :
  replacer_ (flush_entry s e) = replacer_ s
  ∧ next_page_id_ (disk_manager_ (flush_entry s e)) = next_page_id_ (disk_manager_ s)
  ∧ dealloc_log (disk_manager_ (flush_entry s e)) = dealloc_log (disk_manager_ s)
  ∧ pool_size_ (flush_entry s e) = pool_size_ s
  ∧ ∀ (f : nat) p', pages_ (flush_entry s e) !! f = Some p' →
      ∃ p, pages_ s !! f = Some p ∧ data_ p' = data_ p
           ∧ page_id_ p' = page_id_ p ∧ pin_count_ p' = pin_count_ p.
Proof.
  unfold flush_entry. destruct (IsDirty (deref s e.2)).
  - repeat split; try done. intros f p' Hp'.
    apply modify_lookup_Some in Hp' as (p & Hp & [[_ ->]|[-> ->]]);
      exists p; by repeat split.
  - repeat split; try done. intros f p' Hp'. by exists p'.
Qed.

Lemma foldl_flush_frame (es : list (Z * nat)) s :
  replacer_ (foldl flush_entry s es) = replacer_ s
  ∧ next_page_id_ (disk_manager_ (foldl flush_entry s es))
    = next_page_id_ (disk_manager_ s)
  ∧ dealloc_log (disk_manager_ (foldl flush_entry s es))
    = dealloc_log (disk_manager_ s)
  ∧ pool_size_ (foldl flush_entry s es) = pool_size_ s
  ∧ ∀ (f : nat) p', pages_ (foldl flush_entry s es) !! f = Some p' →
      ∃ p, pages_ s !! f = Some p ∧ data_ p' = data_ p
           ∧ page_id_ p' = page_id_ p ∧ pin_count_ p' = pin_count_ p.
Proof.
  revert s. induction es as [|e es IH]; simpl; intros s.
  - repeat split; try done. intros f p' Hp'. by exists p'.
  - destruct (IH (flush_entry s e)) as (Hr & Hn & Hd & Hs & Hp).
    destruct (flush_entry_frame s e) as (Hr0 & Hn0 & Hd0 & Hs0 & Hp0).
    split; [congruence|]. split; [congruence|]. split; [congruence|].
    split; [congruence|].
    intros f p' Hp'. destruct (Hp f p' Hp') as (p1 & Hp1 & ? & ? & ?).
    destruct (Hp0 f p1 Hp1) as (p & Hp2 & ? & ? & ?).
    exists p. split; [done|]. split; [congruence|]. split; congruence.
Qed.

(** X14.  [FlushAllPages] is idempotent, and it changes nothing but dirty
    flags, the dirty set and the pages on disk: the page table, the
    replacer, the free list, the number of frames, the allocation counter
    and the buffer, identifier and pin count of every frame are as before. *)
Theorem FlushAllPages_idempotent_frame s :
  FlushAllPages (FlushAllPages s) = FlushAllPages s
  ∧ page_table_ (FlushAllPages s) = page_table_ s
  ∧ replacer_ (FlushAllPages s) = replacer_ s
  ∧ free_list_ (FlushAllPages s) = free_list_ s
  ∧ length (pages_ (FlushAllPages s)) = length (pages_ s)
  ∧ next_page_id_ (disk_manager_ (FlushAllPages s)) = next_page_id_ (disk_manager_ s)
  ∧ dealloc_log (disk_manager_ (FlushAllPages s)) = dealloc_log (disk_manager_ s)
  ∧ ∀ (f : nat) p', pages_ (FlushAllPages s) !! f = Some p' →
      ∃ p, pages_ s !! f = Some p ∧ data_ p' = data_ p
           ∧ page_id_ p' = page_id_ p ∧ pin_count_ p' = pin_count_ p.
Proof.
  destruct (foldl_flush_frame (map_to_list (dirty_pages_ s)) s)
    as (Hr & Hn & Hd & _ & Hp).
  destruct (same_binding_foldl_flush (map_to_list (dirty_pages_ s)) s)
    as (Ht & Hf & Hl & _).
  split; [|by repeat split].
  unfold FlushAllPages at 1. simpl. by rewrite map_to_list_empty.
Qed.

(** *** Pins *)

(** X15.  When the pin count of a page is 1, [UnpinPage] succeeds once and a
    second [UnpinPage] of the same page returns [false] and changes
    nothing. *)
Theorem second_UnpinPage_is_refused s (page_id : page_id_t) (page : nat) d1 d2 :
  page_table_ s !! page_id = Some page → pin_count_ (deref s page) = 1 →
  (UnpinPage page_id d1 s).1 = true
  ∧ UnpinPage page_id d2 (UnpinPage page_id d1 s).2
    = (false, (UnpinPage page_id d1 s).2).
Proof.
  intros Hfind Hpin.
  pose proof (UnpinPage_pinned s page_id page d1 Hfind) as Hu. cbv zeta in Hu.
  destruct Hu as (Hret & Ht & _ & _ & Hcount); [lia|].
  split; [done|].
  unfold UnpinPage at 1. rewrite Ht, Hfind. unfold GetPinCount.
  rewrite decide_False; [done|]. rewrite Hcount. lia.
Qed.

(** X16.  In a reachable state a [FetchPage] that returns a frame leaves the
    identifier bound to that frame with a positive pin count: until it is
    unpinned, [DeletePage] of the identifier is refused and changes nothing,
    and [UnpinPage] of it succeeds. *)
Theorem fetched_page_holds_a_pin s (page_id : page_id_t) (page : nat) s' :
  reachable s → FetchPage page_id s = Done (Some page, s') →
  page_table_ s' !! page_id = Some page
  ∧ pin_count_ (deref s' page) > 0
  ∧ DeletePage page_id s' = (false, s')
  ∧ ∀ is_dirty, (UnpinPage page_id is_dirty s').1 = true.
Proof.
  intros Hreach Hf. pose proof (reachable_inv _ _ _ Hreach) as Hinv.
  destruct (reachable_pins_covered _ Hreach) as [Hpins _].
  assert (page_table_ s' !! page_id = Some page ∧ pin_count_ (deref s' page) > 0)
    as [Ht Hpin].
  { destruct (decide (page_id = INVALID_PAGE_ID)) as [Hi|Hvalid].
    { unfold_FetchPage. by rewrite decide_True in Hf by done. }
    destruct (page_table_ s !! page_id) as [page'|] eqn:Hfind.
    - unfold_FetchPage. rewrite decide_False, Hfind in Hf by done.
      injection Hf as <- <-. split; [done|].
      destruct (inv_table_deref _ _ _ Hinv Hfind) as [Hlt _].
      rewrite deref_modify_eq by done. simpl.
      pose proof (deref_pin_nonneg s page' Hpins). lia.
    - destruct (FetchPage_miss_steps s page_id page s' Hinv Hfind Hf)
        as (s1 & _ & -> & Hlt).
      destruct (bind_frame_fields s1 page page_id Hlt) as (Hp & _ & _ & Ht & _).
      split; [rewrite Ht; apply lookup_insert_eq|].
      rewrite (deref_lookup _ _ _ Hp). simpl. lia. }
  split; [done|]. split; [done|]. split.
  - unfold_DeletePage. rewrite Ht. unfold GetPinCount.
    rewrite decide_False; [done|lia].
  - intros d. pose proof (UnpinPage_pinned s' page_id page d Ht Hpin) as Hu.
    cbv zeta in Hu. by destruct Hu.
Qed.

(** *** A page that is created, released and deleted *)

Lemma UnpinPage_last_pin s (page_id : page_id_t) (page : nat) is_dirty :
  page_table_ s !! page_id = Some page → pin_count_ (deref s page) = 1 →
  let s2 := (UnpinPage page_id is_dirty s).2 in
  page_table_ s2 = page_table_ s
  ∧ free_list_ s2 = free_list_ s
  ∧ disk_manager_ s2 = disk_manager_ s
  ∧ replacer_ s2 = LRU.Insert page (replacer_ s)
  ∧ dirty_pages_ s2
    = (if is_dirty then <[page_id := page]> (dirty_pages_ s) else dirty_pages_ s)
  ∧ pin_count_ (deref s2 page) = 0
  ∧ ∃ p, pages_ s2 = <[page := p]> (pages_ s).
Proof.
  intros Hfind Hpin.
  assert (pin_count_ (deref s page) > 0) as Hpos by lia.
  pose proof (pinned_in_range _ _ Hpos) as Hlt.
  cbv zeta. unfold UnpinPage, GetPinCount. rewrite Hfind.
  rewrite decide_True by done.
  rewrite (deref_modify_eq _ _ DecreasePinCount Hlt). simpl.
  rewrite decide_True by lia. destruct is_dirty; simpl; autorewrite with pool.
  - rewrite deref_modify_eq by (by rewrite ?length_modify).
    rewrite deref_modify_eq by done. simpl.
    repeat split; try done; try lia.
    eexists. apply list_insert_insert_eq.
  - rewrite deref_modify_eq by done. simpl.
    repeat split; try done; try lia. by eexists.
Qed.

Lemma DeletePage_unpinned_fields s (page_id : page_id_t) (page : nat) :
  page_table_ s !! page_id = Some page → pin_count_ (deref s page) = 0 →
  let s' := (DeletePage page_id s).2 in
  page_table_ s' = delete page_id (page_table_ s)
  ∧ replacer_ s' = (LRU.Erase page (replacer_ s)).2
  ∧ dirty_pages_ s' = delete page_id (dirty_pages_ s)
  ∧ pages_ s' = <[page := Reset (deref s page)]> (pages_ s)
  ∧ free_list_ s' = free_list_ s ++ [page]
  ∧ write_log (disk_manager_ s') = write_log (disk_manager_ s)
  ∧ disk_pages (disk_manager_ s') = disk_pages (disk_manager_ s)
  ∧ dealloc_log (disk_manager_ s') = page_id :: dealloc_log (disk_manager_ s).
Proof.
  intros Hfind Hpin. cbv zeta. unfold_DeletePage. rewrite Hfind.
  unfold GetPinCount. rewrite decide_True by done. by repeat split.
Qed.

(** X17.  In a reachable state whose free list is not empty, [NewPage]
    followed by [UnpinPage] and [DeletePage] of the new identifier moves the
    frame from the front of the free list to its back and resets it: the
    page table and the replacer are as before, the free list has the same
    length, nothing is written to disk even if the page was unpinned as
    dirty, and the disk manager is asked to deallocate the identifier. *)
Theorem NewPage_UnpinPage_DeletePage_round_trip s (page : nat) rest is_dirty :
  reachable s → free_list_ s = page :: rest →
  page_table_ s !! next_page_id_ (disk_manager_ s) = None →
  let id := next_page_id_ (disk_manager_ s) in
  ∃ s1, NewPage s = Done (Some (page, id), s1)
    ∧ (UnpinPage id is_dirty s1).1 = true
    ∧ let s3 := (DeletePage id (UnpinPage id is_dirty s1).2).2 in
      free_list_ s3 = rest ++ [page]
      ∧ length (free_list_ s3) = length (free_list_ s)
      ∧ page_table_ s3 = page_table_ s
      ∧ replacer_ s3 = replacer_ s
      ∧ dirty_pages_ s3 = delete id (dirty_pages_ s)
      ∧ pages_ s3 = <[page := Reset (deref s page)]> (pages_ s)
      ∧ write_log (disk_manager_ s3) = write_log (disk_manager_ s)
      ∧ dealloc_log (disk_manager_ s3) = id :: dealloc_log (disk_manager_ s).
Proof.
  intros Hreach Hfl Hfresh. pose proof (reachable_inv _ _ _ Hreach) as Hinv.
  assert (page ∈ free_list_ s) as Hin by (rewrite Hfl; left).
  destruct (inv_free _ Hinv page Hin) as [Hlt Hunbound].
  assert (page ∉ LRU._list (replacer_ s)) as Hnr.
  { intros Hr. by apply (Hunbound _ (inv_replacer _ Hinv _ Hr)). }
  set (id := next_page_id_ (disk_manager_ s)).
  set (s0 := set_disk_manager (AllocatePage (disk_manager_ s)).2
               (set_free_list rest s)).
  exists (bind_frame page id s0). split.
  { unfold_allocatePage. rewrite Hfl. done. }
  pose proof (bind_frame_fields s0 page id Hlt) as Hbf. cbv zeta in Hbf.
  destruct Hbf as (Hp & _ & _ & Ht & Hr & Hf & Hdp & Hdisk).
  set (s1 := bind_frame page id s0) in *.
  assert (page_table_ s1 !! id = Some page) as Hfind
    by (rewrite Ht; apply lookup_insert_eq).
  assert (pin_count_ (deref s1 page) = 1) as Hpin
    by (by rewrite (deref_lookup _ _ _ Hp)).
  pose proof (UnpinPage_pinned s1 id page is_dirty Hfind) as Hu. cbv zeta in Hu.
  destruct Hu as (Hret & _); [lia|]. split; [done|].
  pose proof (UnpinPage_last_pin s1 id page is_dirty Hfind Hpin) as Hu2.
  cbv zeta in Hu2.
  destruct Hu2 as (Ht2 & Hf2 & Hdisk2 & Hr2 & Hdp2 & Hpin2 & p2 & Hpg2).
  set (s2 := (UnpinPage id is_dirty s1).2) in *.
  assert (page_table_ s2 !! id = Some page) as Hfind2 by (by rewrite Ht2).
  pose proof (DeletePage_unpinned_fields s2 id page Hfind2 Hpin2) as Hd.
  cbv zeta in Hd |- *.
  destruct Hd as (Ht3 & Hr3 & Hdp3 & Hpg3 & Hf3 & Hw3 & _ & Hde3).
  assert (free_list_ (DeletePage id s2).2 = rest ++ [page]) as Hfree
    by (by rewrite Hf3, Hf2, Hf).
  split; [done|]. split; [rewrite Hfree, Hfl, length_app; simpl; lia|].
  split; [rewrite Ht3, Ht2, Ht; by apply delete_insert_id|].
  split.
  { rewrite Hr3, Hr2, Hr. change (replacer_ s0) with (replacer_ s).
    by rewrite (Erase_Insert_fresh _ _ (inv_lru _ Hinv) Hnr). }
  split.
  { rewrite Hdp3, Hdp2, Hdp. destruct is_dirty; [apply delete_insert_eq|done]. }
  split.
  { rewrite Hpg3, Hpg2. unfold bind_frame in s1. subst s1. simpl.
    by rewrite !list_insert_insert_eq. }
  split; [by rewrite Hw3, Hdisk2, Hdisk|]. by rewrite Hde3, Hdisk2, Hdisk.
Qed.

(** *** A dirty page that is evicted and fetched again *)

Lemma UnpinPage_disk_manager s (page_id : page_id_t) is_dirty :
  disk_manager_ (UnpinPage page_id is_dirty s).2 = disk_manager_ s.
Proof.
  unfold UnpinPage. destruct (page_table_ s !! page_id); [|done].
  case_decide; [|done]. case_decide; [|done]. by destruct is_dirty.
Qed.

(** X18.  In a reachable state with an empty free list whose replacer ends
    in a dirty frame, a [FetchPage] that misses evicts that frame; when the
    caller then unpins the fetched page and fetches the evicted identifier
    again, the frame it gets holds the bytes the evicted frame held. *)
Theorem dirty_page_survives_eviction s (page_id : page_id_t) (page : nat) l :
  reachable s → free_list_ s = [] → LRU._list (replacer_ s) = l ++ [page] →
  is_dirty_ (deref s page) = true →
  page_id ≠ INVALID_PAGE_ID → page_table_ s !! page_id = None →
  let p := deref s page in
  ∃ s1, FetchPage page_id s = Done (Some page, s1)
    ∧ ∀ is_dirty (g : nat) s3,
        FetchPage (page_id_ p) (UnpinPage page_id is_dirty s1).2 = Done (Some g, s3) →
        pages_ s3 !! g = Some (mkPage (data_ p) (page_id_ p) 1 false).
Proof.
  intros Hreach Hfl Hl Hd Hvalid Hmiss. pose proof (reachable_inv _ _ _ Hreach) as Hinv.
  destruct (acquire_frame_victim s page l Hinv Hfl Hl) as (Hacq & Hbound & Hlt).
  set (s0 := set_replacer (LRU.mkLRU l (LRU._id2node (replacer_ s) ∖ {[page]})) s)
    in *.
  pose proof (releaseDirty_fields s0 page) as Hrf. cbv zeta in Hrf.
  destruct Hrf as (Ht & _ & _ & _ & Hlen & _ & _ & Hdisk).
  assert (page < length (pages_ (releaseDirty page s0)))%nat as Hlt'
    by (by rewrite Hlen).
  destruct (bind_frame_fields (releaseDirty page s0) page page_id Hlt')
    as (_ & _ & _ & Ht' & _ & _ & _ & Hdisk').
  change (deref s0 page) with (deref s page) in *.
  change (disk_manager_ s0) with (disk_manager_ s) in *.
  change (page_table_ s0) with (page_table_ s) in *.
  rewrite Hd in Hdisk.
  set (s1 := bind_frame page page_id (releaseDirty page s0)) in *.
  assert (FetchPage page_id s = Done (Some page, s1)) as Hf1.
  { rewrite (FetchPage_miss PAGE_SIZE INVALID_PAGE_ID) by done. by rewrite Hacq. }
  cbv zeta. exists s1. split; [done|]. intros d g s3 Hf3.
  set (s2 := (UnpinPage page_id d s1).2) in *.
  assert (reachable s2) as Hreach2.
  { apply reach_UnpinPage. by eapply reach_FetchPage. }
  assert (page_table_ s2 !! page_id_ (deref s page) = None) as Hmiss2.
  { destruct (same_binding_UnpinPage s1 page_id d) as (Hts & _).
    unfold s2. rewrite Hts, Ht', Ht. rewrite lookup_insert_ne by congruence. apply lookup_delete_eq. }
  rewrite (FetchPage_miss_frame s2 _ g s3 (reachable_inv _ _ _ Hreach2) Hmiss2 Hf3).
  do 2 f_equal. apply ReadPage_written.
  subst s2. rewrite UnpinPage_disk_manager, Hdisk', Hdisk. apply lookup_insert_eq.
Qed.

(** *** Flushing one page twice *)

Lemma FlushPage_clean_eq s (page_id : page_id_t) (page : nat) :
  pool_inv s → page_id ≠ INVALID_PAGE_ID → page_table_ s !! page_id = Some page →
  is_dirty_ (deref s page) = false → FlushPage page_id s = Done (false, s).
Proof.
  intros Hinv Hvalid Hfind Hclean.
  destruct (inv_table_deref _ _ _ Hinv Hfind) as [_ Hid].
  unfold_FlushPage. unfold GetPageId, IsDirty.
  rewrite decide_False, Hfind by done.
  rewrite decide_True by done. rewrite decide_True by congruence.
  by rewrite Hclean.
Qed.

(** X20.  In a reachable state, right after a [FlushPage] that returned
    [true] a second [FlushPage] of the same identifier returns [false] and
    changes nothing: the page is written once. *)
Theorem FlushPage_twice_writes_once s (page_id : page_id_t) s' :
  reachable s → FlushPage page_id s = Done (true, s') →
  FlushPage page_id s' = Done (false, s').
Proof.
  intros Hreach Hf.
  assert (reachable s') as Hreach' by (by eapply reach_FlushPage).
  pose proof (reachable_inv _ _ _ Hreach) as Hinv.
  pose proof (reachable_inv _ _ _ Hreach') as Hinv'.
  unfold FlushPage in Hf.
  destruct (decide (page_id = INVALID_PAGE_ID)) as [|Hvalid]; [done|].
  destruct (page_table_ s !! page_id) as [page|] eqn:Hfind; [|done].
  destruct (inv_table_deref _ _ _ Hinv Hfind) as [Hlt _].
  repeat case_decide; try done.
  destruct (IsDirty (deref s page)); [|done]. simpl in Hf.
  destruct (dirty_pages_ s !! page_id); [|done]. injection Hf as <-.
  apply (FlushPage_clean_eq _ _ page); [done|done|done|].
  autorewrite with pool. rewrite deref_modify_eq by done. done.
Qed.

(** *** A victim taken by [NewPage] *)

(** X21.  In a reachable state with an empty free list, [NewPage] takes the
    frame at the back of the replacer and binds it to the next identifier
    of the disk manager.  The identifier the frame carried leaves the page
    table; if the frame was dirty its buffer is written to disk under that
    identifier, and if it was clean nothing is written. *)
Theorem NewPage_victim_is_written_back s (page : nat) l :
  reachable s → free_list_ s = [] → LRU._list (replacer_ s) = l ++ [page] →
  page_table_ s !! next_page_id_ (disk_manager_ s) = None →
  let p := deref s page in
  ∃ s', NewPage s = Done (Some (page, next_page_id_ (disk_manager_ s)), s')
    ∧ LRU._list (replacer_ s') = l
    ∧ page_table_ s' !! page_id_ p = None
    ∧ write_log (disk_manager_ s')
      = (if is_dirty_ p then [(page_id_ p, data_ p)] else [])
        ++ write_log (disk_manager_ s)
    ∧ (is_dirty_ p = true →
       disk_pages (disk_manager_ s') !! page_id_ p = Some (data_ p))
    ∧ (is_dirty_ p = false →
       disk_pages (disk_manager_ s') = disk_pages (disk_manager_ s)).
Proof.
  intros Hreach Hfl Hl Hfresh. pose proof (reachable_inv _ _ _ Hreach) as Hinv.
  destruct (acquire_frame_victim s page l Hinv Hfl Hl) as (Hacq & Hbound & Hlt).
  set (s0 := set_replacer (LRU.mkLRU l (LRU._id2node (replacer_ s) ∖ {[page]})) s)
    in *.
  pose proof (releaseDirty_fields s0 page) as Hrf. cbv zeta in Hrf.
  destruct Hrf as (Ht & Hr & _ & _ & Hlen & _ & _ & Hdisk).
  change (deref s0 page) with (deref s page) in *.
  change (disk_manager_ s0) with (disk_manager_ s) in *.
  change (page_table_ s0) with (page_table_ s) in *.
  set (s1 := releaseDirty page s0) in *.
  assert (next_page_id_ (disk_manager_ s1) = next_page_id_ (disk_manager_ s)) as Hn1.
  { rewrite Hdisk. by destruct (is_dirty_ (deref s page)). }
  assert (page < length (pages_ (set_disk_manager (AllocatePage (disk_manager_ s1)).2 s1)))%nat
    as Hlt' by (change (page < length (pages_ s1))%nat; by rewrite Hlen).
  pose proof (bind_frame_fields
                (set_disk_manager (AllocatePage (disk_manager_ s1)).2 s1)
                page (next_page_id_ (disk_manager_ s1)) Hlt') as Hbf.
  cbv zeta in Hbf. destruct Hbf as (_ & _ & _ & Ht' & Hr' & _ & _ & Hdisk').
  cbv zeta.
  exists (bind_frame page (next_page_id_ (disk_manager_ s1))
            (set_disk_manager (AllocatePage (disk_manager_ s1)).2 s1)).
  split.
  { rewrite <- Hn1.
    change (allocatePage s
            = Done (Some (page, next_page_id_ (disk_manager_ s1)),
                    bind_frame page (next_page_id_ (disk_manager_ s1))
                      (set_disk_manager (AllocatePage (disk_manager_ s1)).2 s1))).
    by rewrite (allocatePage_steps PAGE_SIZE INVALID_PAGE_ID), Hacq. }
  set (s' := bind_frame page (next_page_id_ (disk_manager_ s1))
               (set_disk_manager (AllocatePage (disk_manager_ s1)).2 s1)) in *.
  assert (write_log (disk_manager_ s') = write_log (disk_manager_ s1)) as Hw
    by (by rewrite Hdisk').
  assert (disk_pages (disk_manager_ s') = disk_pages (disk_manager_ s1)) as Hpgs
    by (by rewrite Hdisk').
  split; [rewrite Hr'; change (LRU._list (replacer_ s1) = l); by rewrite Hr|].
  split.
  - rewrite Ht'.
    change (<[next_page_id_ (disk_manager_ s1):=page]> (page_table_ s1)
            !! page_id_ (deref s page) = None).
    rewrite Ht. rewrite lookup_insert_ne by (rewrite Hn1; congruence).
    apply lookup_delete_eq.
  - rewrite Hw, Hpgs, Hdisk. destruct (is_dirty_ (deref s page)); simpl.
    + split; [done|]. split; [|done]. intros _. apply lookup_insert_eq.
    + done.
Qed.

(** *** Frames on the free list *)

Local Abbreviation free_frames_reset :=
  (free_frames_reset PAGE_SIZE INVALID_PAGE_ID).

Lemma free_reset_modify s (page : nat) m :
  free_frames_reset s → page ∉ free_list_ s →
  free_frames_reset (modify_page page m s).
Proof.
  intros Hfr Hn f Hf. simpl in Hf. rewrite pages_modify_ne; [by apply Hfr|].
  by intros ->.
Qed.

Lemma bound_not_free s (k : page_id_t) (page : nat) :
  pool_inv s → page_table_ s !! k = Some page → page ∉ free_list_ s.
Proof. intros Hinv Hk Hin. by apply (proj2 (inv_free _ Hinv _ Hin) k). Qed.

Lemma free_reset_flush_entry s (e : Z * nat) :
  pool_inv s → free_frames_reset s → free_frames_reset (flush_entry s e).
Proof.
  intros Hinv Hfr. unfold flush_entry, IsDirty.
  destruct (is_dirty_ (deref s e.2)) eqn:Hd; [|done].
  pose proof (dirty_in_range _ _ Hd) as Hlt.
  destruct (inv_dirty _ Hinv _ _ (lookup_deref _ _ Hlt) Hd) as [Hb _].
  apply (free_reset_modify
           (set_disk_manager
              (WritePage e.1 (GetData (deref s e.2)) (disk_manager_ s)) s)
           e.2 (SetDirty false)); [done|].
  by apply (bound_not_free s _ _ Hinv Hb).
Qed.

Lemma free_reset_foldl_flush (es : list (Z * nat)) s :
  pool_inv s → free_frames_reset s → free_frames_reset (foldl flush_entry s es).
Proof.
  revert s. induction es as [|e es IH]; simpl; intros s Hinv Hfr; [done|].
  apply IH; [by apply flush_entry_inv|by apply free_reset_flush_entry].
Qed.

Lemma free_reset_acquire_frame s (page : nat) s1 :
  pool_inv s → free_frames_reset s → acquire_frame s = Done (Some (page, s1)) →
  free_frames_reset s1.
Proof.
  intros Hinv Hfr Hacq. unfold acquire_frame in Hacq.
  destruct (free_list_ s) as [|f0 rest] eqn:Hfl.
  - destruct (LRU.Victim (replacer_ s)) as [[[v r]|]|]; simpl in Hacq; try done.
    injection Hacq as <- <-.
    pose proof (releaseDirty_fields (set_replacer r s) v) as Hrf. cbv zeta in Hrf.
    destruct Hrf as (_ & _ & Hf & _).
    intros f Hin. rewrite Hf in Hin. simpl in Hin. rewrite Hfl in Hin.
    by apply elem_of_nil in Hin.
  - injection Hacq as <- <-. intros f Hin. simpl in *. apply Hfr.
    rewrite Hfl. by right.
Qed.

Lemma reachable_free_reset s : reachable s → free_frames_reset s.
Proof.
  induction 1 as [n dm|s k r s' Hs IH Hf|s r s' Hs IH Hfresh Hn
                 |s k d Hs IH|s k r s' Hs IH Hf|s Hs IH
                 |s k Hs IH|s page d Hs IH Hpin Hlen];
    try pose proof (reachable_inv _ _ _ Hs) as Hinv.
  - intros f Hf. simpl in *. apply elem_of_seq in Hf.
    apply lookup_replicate_2. lia.
  - destruct (decide (k = INVALID_PAGE_ID)) as [Hi|Hvalid].
    { unfold_FetchPage. rewrite decide_True in Hf by done. by injection Hf as _ <-. }
    destruct (page_table_ s !! k) as [page|] eqn:Hfind.
    + unfold_FetchPage. rewrite decide_False, Hfind in Hf by done.
      injection Hf as _ <-. apply free_reset_modify; [done|].
      by apply (bound_not_free s k).
    + rewrite (FetchPage_miss PAGE_SIZE INVALID_PAGE_ID) in Hf by done.
      destruct (acquire_frame s) as [[[page s1]|]|] eqn:Hacq; simpl in Hf; [| |done].
      * injection Hf as _ <-.
        destruct (acquire_frame_inv _ _ _ Hinv Hacq) as (_ & (_ & _ & Hnf & _) & _).
        unfold_bind_frame.
        apply (free_reset_modify s1 page); [|done].
        by apply (free_reset_acquire_frame s page).
      * by injection Hf as _ <-.
  - change (allocatePage s = Done (r, s')) in Hn.
    rewrite (allocatePage_steps PAGE_SIZE INVALID_PAGE_ID) in Hn.
    destruct (acquire_frame s) as [[[page s1]|]|] eqn:Hacq; simpl in Hn; [| |done].
    + injection Hn as _ <-.
      destruct (acquire_frame_inv _ _ _ Hinv Hacq) as (_ & (_ & _ & Hnf & _) & _).
      unfold_bind_frame.
      apply (free_reset_modify
               (set_disk_manager (AllocatePage (disk_manager_ s1)).2 s1) page);
        [|done].
      change (free_frames_reset s1). by apply (free_reset_acquire_frame s page).
    + by injection Hn as _ <-.
  - unfold UnpinPage. destruct (page_table_ s !! k) as [page|] eqn:Hfind; [|done].
    case_decide; [|done].
    pose proof (bound_not_free s k page Hinv Hfind) as Hnf.
    pose proof (free_reset_modify s page DecreasePinCount IH Hnf) as H1.
    case_decide; [|done]. destruct d; [|done].
    by apply (free_reset_modify (modify_page page DecreasePinCount s) page
                (SetDirty true)).
  - unfold_FlushPage. case_decide; [by injection Hf as _ <-|].
    destruct (page_table_ s !! k) as [page|] eqn:Hfind; [|done].
    repeat case_decide; try done.
    destruct (IsDirty (deref s page)); [|by injection Hf as _ <-].
    simpl in Hf. destruct (dirty_pages_ s !! k); [|done].
    injection Hf as _ <-.
    apply (free_reset_modify
             (set_disk_manager
                (WritePage k (GetData (deref s page)) (disk_manager_ s)) s)
             page (SetDirty false)); [done|].
    by apply (bound_not_free s k).
  - by apply (free_reset_foldl_flush (map_to_list (dirty_pages_ s)) s).
  - unfold_DeletePage. destruct (page_table_ s !! k) as [page|] eqn:Hfind; [|done].
    case_decide; [|done]. simpl.
    destruct (inv_table_deref _ _ _ Hinv Hfind) as [Hlt _].
    pose proof (bound_not_free s k page Hinv Hfind) as Hnf.
    intros f Hin. simpl in *. apply elem_of_app in Hin as [Hin|Hin].
    + rewrite list_lookup_insert_ne by (by intros ->). by apply IH.
    + apply list_elem_of_singleton in Hin as ->.
      by rewrite list_lookup_insert_eq.
  - apply free_reset_modify; [done|]. intros Hin.
    specialize (IH page Hin). rewrite (deref_lookup _ _ _ IH) in Hpin.
    simpl in Hpin. lia.
Qed.

(** X22.  In a reachable state every frame on the free list is as [Reset]
    leaves it: zeroed buffer, invalid identifier, pin count 0, clean.  So a
    frame with a positive pin count is never on the free list. *)
Theorem free_frames_are_reset s :
  reachable s →
  (∀ f : nat, f ∈ free_list_ s →
     pages_ s !! f = Some (mkPage zero_buffer INVALID_PAGE_ID 0 false))
  ∧ (∀ f : nat, pin_count_ (deref s f) > 0 → f ∉ free_list_ s).
Proof.
  intros Hreach. pose proof (reachable_free_reset s Hreach) as Hfr.
  split; [exact Hfr|]. intros f Hpin Hin.
  rewrite (deref_lookup _ _ _ (Hfr f Hin)) in Hpin. simpl in Hpin. lia.
Qed.

(** *** What the destructor leaves on disk *)

Lemma flush_entry_other_frame s (e : Z * nat) (f : nat) :
  e.2 ≠ f → pages_ (flush_entry s e) !! f = pages_ s !! f.
Proof.
  intros Hne. unfold flush_entry. destruct (IsDirty (deref s e.2)); [|done].
  rewrite pages_modify_ne by done. done.
Qed.

(** A run of [flush_entry] over entries that mention a dirty frame writes
    the buffer of that frame, under the key of one of those entries. *)
Lemma foldl_flush_writes_dirty (es : list (Z * nat)) s (f : nat) p (k0 : Z) :
  pages_ s !! f = Some p → is_dirty_ p = true → (k0, f) ∈ es →
  ∃ k w, (k, f) ∈ es
         ∧ write_log (disk_manager_ (foldl flush_entry s es))
           = w ++ write_log (disk_manager_ s)
         ∧ (k, data_ p) ∈ w.
Proof.
  revert s. induction es as [|e es IH]; simpl; intros s Hp Hd Hin.
  { by apply elem_of_nil in Hin. }
  destruct (decide (e.2 = f)) as [Heq|Hne].
  - destruct (foldl_flush_write_log es (flush_entry s e)) as (w & Hw & _).
    rewrite flush_entry_write_log in Hw.
    rewrite Heq, (deref_lookup _ _ _ Hp), Hd in Hw.
    exists e.1, (w ++ [(e.1, data_ p)]). split; [|split].
    + destruct e as [k1 f1]. simpl in *. subst f1. left.
    + rewrite Hw. by rewrite <- app_assoc.
    + apply elem_of_app. right. by apply list_elem_of_singleton.
  - assert ((k0, f) ∈ es) as Hin'.
    { apply elem_of_cons in Hin as [Heq|Hin]; [|done]. by subst e. }
    destruct (IH (flush_entry s e)) as (k & w & Hk & Hw & Hkw); [|done|done|].
    { by rewrite flush_entry_other_frame. }
    rewrite flush_entry_write_log in Hw.
    exists k, (w ++ (if is_dirty_ (deref s e.2)
                     then [(e.1, data_ (deref s e.2))] else [])).
    split; [by right|]. split.
    + rewrite Hw. by rewrite <- app_assoc.
    + apply elem_of_app. by left.
Qed.

(** X23.  In a reachable state the destructor, through [FlushAllPages],
    writes the buffer of every dirty frame to disk, under a key that the
    dirty set maps to that frame. *)
Theorem destructor_writes_every_dirty_frame s (f : nat) p :
  reachable s → pages_ s !! f = Some p → is_dirty_ p = true →
  ∃ k w, dirty_pages_ s !! k = Some f
         ∧ write_log (BufferPoolManager_delete s) = w ++ write_log (disk_manager_ s)
         ∧ (k, data_ p) ∈ w.
Proof.
  intros Hreach Hp Hd. pose proof (reachable_inv _ _ _ Hreach) as Hinv.
  destruct (inv_dirty _ Hinv _ _ Hp Hd) as [_ Hdp].
  apply elem_of_map_to_list in Hdp.
  destruct (foldl_flush_writes_dirty _ s f p _ Hp Hd Hdp) as (k & w & Hk & Hw & Hkw).
  exists k, w. split; [by apply elem_of_map_to_list|]. split; [exact Hw|exact Hkw].
Qed.

End BufferPool_more.

(** ** The further properties on the concrete pools *)

Lemma pool_unpinned_reachable : reachable 2 (-1) pool_unpinned.
Proof. apply (reach_UnpinPage 2 (-1) pool_pinned 0 false), pool_pinned_reachable. Defined.

Lemma pool_evicted_reachable : reachable 2 (-1) pool_evicted.
Proof.
  apply (reach_NewPage 2 (-1) pool_dirty (Some (0%nat, 1)) pool_evicted).
  - exact pool_dirty_reachable.
  - reflexivity.
  - reflexivity.
Defined.

Lemma pool_rewritten_reachable : reachable 2 (-1) pool_rewritten.
Proof.
  apply (reach_UnpinPage 2 (-1)
           (modify_page 0 (SetData [Byte.x58; Byte.x59]) pool_evicted) 1 true).
  apply reach_write.
  - exact pool_evicted_reachable.
  - reflexivity.
  - reflexivity.
Defined.

Lemma pool_operations_never_fault_witness :
  reachable 2 (-1) pool_dirty
  ∧ (∃ r s', FetchPage 2 (-1) 5 pool_dirty = Done (r, s'))
  ∧ (∃ r s', NewPage 2 (-1) pool_dirty = Done (r, s')).
Proof.
  split; [exact pool_dirty_reachable|].
  destruct (pool_operations_never_fault 2 (-1) pool_dirty pool_dirty_reachable)
    as [Hf Hn].
  split; [exact (Hf 5)|exact Hn].
Defined.

Lemma FlushPage_present_contract_witness :
  page_table_ pool_dirty !! 0 = Some 0%nat
  ∧ is_dirty_ (deref pool_dirty 0) = true
  ∧ ∃ s', FlushPage (-1) 0 pool_dirty = Done (true, s')
          ∧ dirty_pages_ s' = delete 0 (dirty_pages_ pool_dirty)
          ∧ disk_pages (disk_manager_ s') !! 0 = Some [Byte.x00; Byte.x00].
Proof.
  split; [reflexivity|]. split; [reflexivity|].
  pose proof (FlushPage_present_contract 2 (-1) pool_dirty 0 0%nat
                pool_dirty_reachable) as H.
  destruct H as (s' & Hf & _ & _ & Hdp & _ & Hdisk & _); [lia|reflexivity|].
  exists s'. split; [exact Hf|]. split; [exact Hdp|exact Hdisk].
Defined.

Lemma page_table_binds_one_frame_witness :
  page_table_ pool_pinned !! 0 = Some 0%nat
  ∧ page_id_ (deref pool_pinned 0) = 0
  ∧ (0%nat ∉ free_list_ pool_pinned).
Proof.
  split; [reflexivity|].
  destruct (page_table_binds_one_frame 2 (-1) pool_pinned 0 0 0%nat
              pool_pinned_reachable) as (_ & _ & Hid & Hnf);
    [reflexivity|reflexivity|].
  split; [exact Hid|exact Hnf].
Defined.

Lemma frames_are_free_or_bound_witness :
  NoDup (free_list_ pool_dirty)
  ∧ ∀ f : nat, f ∈ LRU._list (replacer_ pool_dirty) →
      (f < length (pages_ pool_dirty))%nat
      ∧ page_table_ pool_dirty !! page_id_ (deref pool_dirty f) = Some f.
Proof.
  destruct (frames_are_free_or_bound 2 (-1) pool_dirty pool_dirty_reachable)
    as (Hnd & _ & Hrep).
  split; [exact Hnd|exact Hrep].
Defined.

Lemma pin_counts_never_negative_witness :
  pages_ pool_pinned !! 0%nat = Some (mkPage [Byte.x00; Byte.x00] 0 1 false)
  ∧ 0 ≤ 1.
Proof.
  split; [reflexivity|].
  exact (pin_counts_never_negative 2 (-1) pool_pinned 0%nat
           (mkPage [Byte.x00; Byte.x00] 0 1 false) pool_pinned_reachable eq_refl).
Defined.

Lemma dirty_frames_are_recorded_witness :
  pages_ pool_dirty !! 0%nat = Some (mkPage [Byte.x00; Byte.x00] 0 0 true)
  ∧ page_table_ pool_dirty !! 0 = Some 0%nat
  ∧ dirty_pages_ pool_dirty !! 0 = Some 0%nat.
Proof.
  split; [reflexivity|].
  destruct (dirty_frames_are_recorded 2 (-1) pool_dirty 0%nat
              (mkPage [Byte.x00; Byte.x00] 0 0 true) pool_dirty_reachable)
    as (Ht & Hd & _); [reflexivity|reflexivity|].
  split; [exact Ht|exact Hd].
Defined.

Lemma FetchPage_miss_reads_through_witness :
  page_table_ pool_rewritten !! 0 = None
  ∧ FetchPage 2 (-1) 0 pool_rewritten = Done (Some 0%nat, pool_rewritten_refetched)
  ∧ pages_ pool_rewritten_refetched !! 0%nat
    = Some (mkPage (ReadPage 2 0 (disk_manager_ pool_rewritten)) 0 1 false).
Proof.
  split; [reflexivity|]. split; [reflexivity|].
  destruct (FetchPage_miss_reads_through 2 (-1) pool_rewritten 0 0%nat
              pool_rewritten_refetched pool_rewritten_reachable)
    as (Hp & _); [reflexivity|reflexivity|].
  exact Hp.
Defined.

Lemma victim_is_written_back_if_dirty_witness :
  LRU._list (replacer_ pool_rewritten) = [0%nat]
  ∧ deref pool_rewritten 0 = mkPage [Byte.x58; Byte.x59] 1 0 true
  ∧ ∃ s', FetchPage 2 (-1) 0 pool_rewritten = Done (Some 0%nat, s')
          ∧ write_log (disk_manager_ s')
            = [(1, [Byte.x58; Byte.x59])] ++ write_log (disk_manager_ pool_rewritten).
Proof.
  split; [reflexivity|]. split; [reflexivity|].
  destruct (victim_is_written_back_if_dirty 2 (-1) pool_rewritten 0 0%nat []
              pool_rewritten_reachable)
    as (s' & Hf & _ & _ & Hw & _); [reflexivity|reflexivity|lia|reflexivity|].
  exists s'. split; [exact Hf|exact Hw].
Defined.

Lemma NewPage_binds_next_identifier_witness :
  NewPage 2 (-1) pool_dirty = Done (Some (0%nat, 1), pool_evicted)
  ∧ next_page_id_ (disk_manager_ pool_dirty) = 1
  ∧ next_page_id_ (disk_manager_ pool_evicted) = 1 + 1
  ∧ page_table_ pool_evicted !! 1 = Some 0%nat.
Proof.
  split; [reflexivity|].
  destruct (NewPage_binds_next_identifier 2 (-1) pool_dirty 0%nat 1 pool_evicted
              pool_dirty_reachable)
    as (Hid & Hnext & Ht & _); [reflexivity|reflexivity|].
  split; [symmetry; exact Hid|]. split; [exact Hnext|exact Ht].
Defined.

Lemma free_frame_is_taken_first_witness :
  free_list_ pool2_fresh = [0%nat; 1%nat]
  ∧ ∃ s', FetchPage 2 (-1) 7 pool2_fresh = Done (Some 0%nat, s')
          ∧ free_list_ s' = [1%nat]
          ∧ replacer_ s' = replacer_ pool2_fresh.
Proof.
  split; [reflexivity|].
  destruct (free_frame_is_taken_first 2 (-1) pool2_fresh 0%nat [1%nat] 7)
    as [(s' & Hf & Hfl & Hr & _) _]; [reflexivity|lia|reflexivity|].
  exists s'. split; [exact Hf|]. split; [exact Hfl|exact Hr].
Defined.

Lemma second_UnpinPage_is_refused_witness :
  pin_count_ (deref pool_pinned 0) = 1
  ∧ (UnpinPage 0 false pool_pinned).1 = true
  ∧ UnpinPage 0 false pool_unpinned = (false, pool_unpinned).
Proof.
  split; [reflexivity|].
  exact (second_UnpinPage_is_refused pool_pinned 0 0%nat false false eq_refl eq_refl).
Defined.

Lemma fetched_page_holds_a_pin_witness :
  FetchPage 2 (-1) 0 pool_unpinned = Done (Some 0%nat, pool_refetched)
  ∧ pin_count_ (deref pool_refetched 0) > 0
  ∧ DeletePage 2 (-1) 0 pool_refetched = (false, pool_refetched).
Proof.
  split; [reflexivity|].
  destruct (fetched_page_holds_a_pin 2 (-1) pool_unpinned 0 0%nat pool_refetched
              pool_unpinned_reachable)
    as (_ & Hpin & Hdel & _); [reflexivity|].
  split; [exact Hpin|exact Hdel].
Defined.

Lemma NewPage_UnpinPage_DeletePage_round_trip_witness :
  free_list_ pool_fresh = [0%nat]
  ∧ ∃ s1, NewPage 2 (-1) pool_fresh = Done (Some (0%nat, 0), s1)
          ∧ free_list_ (DeletePage 2 (-1) 0 (UnpinPage 0 true s1).2).2 = [0%nat]
          ∧ page_table_ (DeletePage 2 (-1) 0 (UnpinPage 0 true s1).2).2
            = page_table_ pool_fresh.
Proof.
  split; [reflexivity|].
  destruct (NewPage_UnpinPage_DeletePage_round_trip 2 (-1) pool_fresh 0%nat [] true)
    as (s1 & Hn & _ & Hfl & _ & Ht & _); [apply reach_new|reflexivity|reflexivity|].
  exists s1. split; [exact Hn|]. split; [exact Hfl|exact Ht].
Defined.

Lemma dirty_page_survives_eviction_witness :
  deref pool_rewritten 0 = mkPage [Byte.x58; Byte.x59] 1 0 true
  ∧ ∃ s1, FetchPage 2 (-1) 0 pool_rewritten = Done (Some 0%nat, s1)
          ∧ ∀ (g : nat) s3,
              FetchPage 2 (-1) 1 (UnpinPage 0 false s1).2 = Done (Some g, s3) →
              pages_ s3 !! g = Some (mkPage [Byte.x58; Byte.x59] 1 1 false).
Proof.
  split; [reflexivity|].
  destruct (dirty_page_survives_eviction 2 (-1) pool_rewritten 0 0%nat []
              pool_rewritten_reachable)
    as (s1 & Hf & Hback); [reflexivity|reflexivity|reflexivity|lia|reflexivity|].
  exists s1. split; [exact Hf|]. intros g s3. exact (Hback false g s3).
Defined.

Lemma FlushPage_twice_writes_once_witness :
  FlushPage (-1) 0 pool_dirty = Done (true, pool_flushed)
  ∧ FlushPage (-1) 0 pool_flushed = Done (false, pool_flushed).
Proof.
  split; [reflexivity|].
  apply (FlushPage_twice_writes_once 2 (-1) pool_dirty 0 pool_flushed
           pool_dirty_reachable).
  reflexivity.
Defined.

Lemma NewPage_victim_is_written_back_witness :
  LRU._list (replacer_ pool_dirty) = [0%nat]
  ∧ ∃ s', NewPage 2 (-1) pool_dirty = Done (Some (0%nat, 1), s')
          ∧ page_table_ s' !! 0 = None
          ∧ write_log (disk_manager_ s')
            = [(0, [Byte.x00; Byte.x00])] ++ write_log (disk_manager_ pool_dirty).
Proof.
  split; [reflexivity|].
  destruct (NewPage_victim_is_written_back 2 (-1) pool_dirty 0%nat []
              pool_dirty_reachable)
    as (s' & Hn & _ & Ht & Hw & _); [reflexivity|reflexivity|reflexivity|].
  exists s'. split; [exact Hn|]. split; [exact Ht|exact Hw].
Defined.

Lemma free_frames_are_reset_witness :
  free_list_ pool_deleted = [0%nat]
  ∧ pages_ pool_deleted !! 0%nat = Some (mkPage [Byte.x00; Byte.x00] (-1) 0 false).
Proof.
  split; [reflexivity|].
  assert (reachable 2 (-1) pool_deleted) as Hreach.
  { apply (reach_DeletePage 2 (-1) pool_unpinned 0), pool_unpinned_reachable. }
  destruct (free_frames_are_reset 2 (-1) pool_deleted Hreach) as [Hfr _].
  apply (Hfr 0%nat). left.
Defined.

Lemma destructor_writes_every_dirty_frame_witness :
  deref pool_rewritten 0 = mkPage [Byte.x58; Byte.x59] 1 0 true
  ∧ ∃ k w, dirty_pages_ pool_rewritten !! k = Some 0%nat
           ∧ write_log (BufferPoolManager_delete pool_rewritten)
             = w ++ write_log (disk_manager_ pool_rewritten)
           ∧ (k, [Byte.x58; Byte.x59]) ∈ w.
Proof.
  split; [reflexivity|].
  exact (destructor_writes_every_dirty_frame 2 (-1) pool_rewritten 0%nat
           (mkPage [Byte.x58; Byte.x59] 1 0 true) pool_rewritten_reachable
           eq_refl eq_refl).
Defined.
